(** * Plasmodium drug prediction system: a model of [main.py]

    The Streamlit script [main.py] is embedded as a state-and-exception
    monad over a [World] (file system, the [st.cache_data] store, and the
    trace of everything the script shows or asks of a collaborator).  The
    libraries the script calls (RDKit, pandas' CSV reader, pickle and the
    unpickled models, the PaDEL shell script, pypdb) are the fields of an
    environment record [Env]; everything the script itself computes is
    written out.  Strings are byte strings.  The page set-up that runs
    before [main] (configuration, fixed style block, title) and the input
    widgets, whose values are the arguments of [main], leave no trace
    here. *)

From Stdlib Require Import ZArith List Ascii String SpecFloat.
From Stdlib Require Import DecimalString DecimalPos DecimalN.
From stdpp Require Import base tactics option list gmap strings.

Local Open Scope Z_scope.

(** ** Python values *)

(** Exceptions, by the class that decides whether [except ValueError]
    catches them.  [ValueError] stands for the class and its subclasses
    (pandas' [ParserError] and [EmptyDataError] are such); its argument is
    [str(e)]. *)
Inductive exn : Type :=
| ValueError (msg : string)
| KeyError (labels : string)
| FileNotFoundError (path : string)
| IndexError
| ExternalError (cls : string).

Definition result (A : Type) : Type := (exn + A)%type.

(** A NumPy scalar: a 64-bit integer or a binary64 float. *)
Inductive num : Type :=
| NInt (z : Z)
| NFloat (f : spec_float).

(** A table cell. *)
Inductive cell : Type :=
| CNum (n : num)
| CStr (s : string).

(** A [pandas.DataFrame]: the row index and the columns in order, each a
    label with one cell per row. *)
Record DataFrame : Type := mkDataFrame {
  df_index : list Z;
  df_columns : list (string * list cell)
}.

Definition column_names (df : DataFrame) : list string :=
  map fst (df_columns df).

Definition n_rows (df : DataFrame) : nat := length (df_index df).

(** An unpickled predictor: all the script uses of it is [predict]. *)
Record Model : Type := mkModel {
  predict : DataFrame -> result (list num)
}.

(** Blocks of literal HTML handed to [st.markdown(..., unsafe_allow_html=True)]. *)
Inductive html_block : Type :=
| hide_table_row_index
| contact_form.

(** What a run shows on the page and what it asks of its collaborators,
    in the order it happens. *)
Inductive event : Type :=
| StText (s : string)
| StError (s : string)
| StMarkdown (s : string)
| StHtml (h : html_block)
| StTable (df : DataFrame)
| StWrite (s : string)
| StHeader (s : string)
| StColumns (n : Z)
| StEmpty
| MolParse (smiles : string)
| Describe (smiles : string)
| FileWrite (path content : string)
| Subprocess (argv : list string)
| ReadCsv (path : string)
| PickleLoad (path : string)
| Predict (X : DataFrame)
| Search (query : string).

Record World : Type := mkWorld {
  fs : gmap string string;
  cache : gmap string DataFrame;
  trace : list event
}.

(** ** The collaborators *)

Record Env : Type := mkEnv {
  Mol : Type;
  MolFromSmiles : string -> option Mol;
  MolWt : Mol -> spec_float;
  MolLogP : Mol -> spec_float;
  NumHDonors : Mol -> Z;
  NumHAcceptors : Mol -> Z;
  (** [pickle.load] on the bytes of a file *)
  pickle_load : string -> result Model;
  (** [bash ./padel.sh]: exit status and the files it leaves behind *)
  bash : list string -> gmap string string -> Z * gmap string string;
  (** pandas' CSV parser on the text of a file *)
  parse_csv : string -> result DataFrame;
  (** [Query(s).search()] of pypdb, as the sequence it yields *)
  pdb_search : string -> result (list string);
  (** what [open(name, 'w')] raises, if anything, for a name that is not
      a plain file name of the working directory (a path into another
      directory, the empty name, ...) *)
  os_open_w : gmap string string -> string -> option exn;
  (** [bool()] of an empty NumPy array: [False] with a warning up to
      NumPy 2.1, a [ValueError] from 2.2 on *)
  empty_array_truth : result bool
}.

(** ** The monad *)

Definition M (A : Type) : Type := World -> result A * World.

Definition ret {A} (a : A) : M A := fun w => (inr a, w).

Definition raise {A} (e : exn) : M A := fun w => (inl e, w).

Definition bind {A B} (m : M A) (k : A -> M B) : M B :=
  fun w =>
    match m w with
    | (inl e, w') => (inl e, w')
    | (inr a, w') => k a w'
    end.

Notation "x <- m ;; k" := (bind m (fun x => k))
  (at level 100, m at next level, right associativity).
Notation "m ;;; k" := (bind m (fun _ => k))
  (at level 100, right associativity).

Definition lift {A} (r : result A) : M A := fun w => (r, w).

Definition emit (e : event) : M unit :=
  fun w => (inr tt, mkWorld (fs w) (cache w) (trace w ++ [e])).

Definition get_fs : M (gmap string string) := fun w => (inr (fs w), w).

Definition put_fs (f : gmap string string) : M unit :=
  fun w => (inr tt, mkWorld f (cache w) (trace w)).

Definition get_cache : M (gmap string DataFrame) := fun w => (inr (cache w), w).

Definition put_cache (c : gmap string DataFrame) : M unit :=
  fun w => (inr tt, mkWorld (fs w) c (trace w)).

(** [try: body except ValueError as e: handler(str(e))] *)
Definition try_except_ValueError (body : M unit) (handler : string -> M unit) : M unit :=
  fun w =>
    match body w with
    | (inl (ValueError msg), w') => handler msg w'
    | r => r
    end.

(** ** Characters and decimal numerals *)

Definition TAB : ascii := "009"%char.
Definition LF : ascii := "010"%char.
Definition CR : ascii := "013"%char.
Definition DQUOTE : ascii := "034"%char.
Definition COMMA : ascii := ","%char.

Definition CRLF : string := String CR (String LF EmptyString).

(** [str(n)] for a natural number [n] *)
Definition dec (n : Z) : string := NilZero.string_of_uint (N.to_uint (Z.to_N n)).

Definition digit_char (d : Z) : ascii := ascii_of_N (48 + Z.to_N d).

(** ** [calculate_lipinski_descriptors] *)

(** [pd.DataFrame(descriptors, index=[0])]: the four descriptors of a
    molecule as a frame of one row. *)
Definition lipinski_frame (E : Env) (mol : Mol E) : DataFrame :=
  mkDataFrame [0]
    [ ("MW", [CNum (NFloat (MolWt E mol))]);
      ("LogP", [CNum (NFloat (MolLogP E mol))]);
      ("NumHDonors", [CNum (NInt (NumHDonors E mol))]);
      ("NumHAcceptors", [CNum (NInt (NumHAcceptors E mol))]) ].

(** The body of the function: parse, fail on [None], else compute the
    descriptors. *)
Definition lipinski_body (E : Env) (smiles : string) : M DataFrame :=
  emit (MolParse smiles) ;;;
  match MolFromSmiles E smiles with
  | None => raise (ValueError "Invalid SMILES string")
  | Some mol => emit (Describe smiles) ;;; ret (lipinski_frame E mol)
  end.

(** [@st.cache_data]: a stored value for the argument is returned (as a
    copy, so later changes by the caller do not reach the store) without
    running the body; otherwise the body runs and a value it returns is
    stored.  A raised exception is not stored. *)
Definition calculate_lipinski_descriptors (E : Env) (smiles : string) : M DataFrame :=
  c <- get_cache ;;
  match c !! smiles with
  | Some df => ret df
  | None =>
      df <- lipinski_body E smiles ;;
      c' <- get_cache ;;
      put_cache (<[smiles := df]> c') ;;;
      ret df
  end.

(** ** [generate_csv_file] *)

(** The characters that make [csv.writer] (dialect [excel],
    [QUOTE_MINIMAL]) quote a field: the delimiter, the quote character and
    the characters of the line terminator. *)
Definition csv_special (c : ascii) : bool :=
  Ascii.eqb c COMMA || Ascii.eqb c DQUOTE || Ascii.eqb c CR || Ascii.eqb c LF.

Fixpoint has_special (s : string) : bool :=
  match s with
  | EmptyString => false
  | String c s' => csv_special c || has_special s'
  end.

(** [doublequote=True]: a quote character inside a field is written twice. *)
Fixpoint csv_double_quotes (s : string) : string :=
  match s with
  | EmptyString => EmptyString
  | String c s' =>
      if Ascii.eqb c DQUOTE
      then String DQUOTE (String DQUOTE (csv_double_quotes s'))
      else String c (csv_double_quotes s')
  end.

Definition csv_field (s : string) : string :=
  if has_special s
  then String DQUOTE (csv_double_quotes s +:+ String DQUOTE EmptyString)
  else s.

(** [writer.writerow(row)]: the fields joined by the delimiter, then the
    line terminator; a row of one empty field is written as a quoted
    empty field. *)
Definition csv_writerow (row : list string) : string :=
  match row with
  | [EmptyString] => String DQUOTE (String DQUOTE CRLF)
  | _ => String.concat (String COMMA EmptyString) (map csv_field row) +:+ CRLF
  end.

Definition csv_writerows (rows : list (list string)) : string :=
  String.concat EmptyString (map csv_writerow rows).

Fixpoint no_separator (s : string) : bool :=
  match s with
  | EmptyString => true
  | String c s' =>
      negb (Ascii.eqb c "/"%char) && negb (Ascii.eqb c "000"%char) && no_separator s'
  end.

(** A plain file name of the working directory: not empty, not [.] or
    [..], without a path separator and without a NUL. *)
Definition plain_name (filename : string) : bool :=
  negb (String.eqb filename EmptyString)
  && negb (String.eqb filename ".")
  && negb (String.eqb filename "..")
  && no_separator filename.

(** Whether [open(filename, 'w')] raises: the working directory can be
    written, so a plain name opens; for any other name the operating
    system decides. *)
Definition open_w (E : Env) (f : gmap string string) (filename : string) : option exn :=
  if plain_name filename then None else os_open_w E f filename.

(** [open(filename, 'w', newline='')] raises or truncates the file; with
    [newline=''] what the writer produces is stored untranslated. *)
Definition generate_csv_file (E : Env) (string1 string2 filename : string) : M unit :=
  let data := [[string1 +:+ String TAB EmptyString +:+ string2]] in
  f <- get_fs ;;
  match open_w E f filename with
  | Some e => raise e
  | None =>
      let content := csv_writerows data in
      emit (FileWrite filename content) ;;;
      put_fs (<[filename := content]> f)
  end.

(** ** Library calls of [main] *)

(** [pickle.load(open(filename, 'rb'))] *)
Definition load_model (E : Env) (filename : string) : M Model :=
  f <- get_fs ;;
  match f !! filename with
  | None => raise (FileNotFoundError filename)
  | Some bytes => emit (PickleLoad filename) ;;; lift (pickle_load E bytes)
  end.

(** [loaded_model.predict(X)] *)
Definition model_predict (m : Model) (X : DataFrame) : M (list num) :=
  emit (Predict X) ;;; lift (predict m X).

(** [subprocess.call(argv)]: blocks until the process ends and returns
    its exit status. *)
Definition subprocess_call (E : Env) (argv : list string) : M Z :=
  emit (Subprocess argv) ;;;
  f <- get_fs ;;
  put_fs (snd (bash E argv f)) ;;;
  ret (fst (bash E argv f)).

(** [pd.read_csv(path)] *)
Definition read_csv (E : Env) (path : string) : M DataFrame :=
  emit (ReadCsv path) ;;;
  f <- get_fs ;;
  match f !! path with
  | None => raise (FileNotFoundError path)
  | Some text => lift (parse_csv E text)
  end.

(** [df.drop(columns=labels)]: a label that names no column is a
    [KeyError]; otherwise every column with one of the labels goes. *)
Definition drop (labels : list string) (df : DataFrame) : result DataFrame :=
  match filter (λ l, l ∉ column_names df) labels with
  | [] => inr (mkDataFrame (df_index df)
                 (filter (λ c, c.1 ∉ labels) (df_columns df)))
  | missing => inl (KeyError (String.concat ", " missing))
  end.

(** [df.columns = names]: the number of names must be the number of
    columns. *)
Definition set_columns (names : list string) (df : DataFrame) : result DataFrame :=
  if bool_decide (length names = length (df_columns df))
  then inr (mkDataFrame (df_index df)
              (zip_with (λ n c, (n, c.2)) names (df_columns df)))
  else inl (ValueError
              ("Length mismatch: Expected axis has "
               +:+ dec (Z.of_nat (length (df_columns df)))
               +:+ " elements, new values have "
               +:+ dec (Z.of_nat (length names)) +:+ " elements")).

(** The binary64 number one. *)
Definition float_one : spec_float := S754_finite false 4503599627370496 (-52).

Definition num_eq_1 (x : num) : bool :=
  match x with
  | NInt z => (z =? 1)%Z
  | NFloat f => SFeqb f float_one
  end.

(** The truth value of [y_pred == [1]] for an array [y_pred]: the
    comparison is element-wise against the broadcast [1], and [if] asks
    the resulting array for its truth value, which only an array of one
    element has. *)
Definition eq_1_truth (E : Env) (y_pred : list num) : result bool :=
  match y_pred with
  | [] => empty_array_truth E
  | [x] => inr (num_eq_1 x)
  | _ :: _ :: _ =>
      inl (ValueError
             "The truth value of an array with more than one element is ambiguous. Use a.any() or a.all()")
  end.

(** [y_pred[0]] *)
Definition first_item (y_pred : list num) : result num :=
  match y_pred with
  | [] => inl IndexError
  | x :: _ => inr x
  end.

(** *** [format(x, ".2f")] *)

(** [n / d] rounded to the nearest integer, a tie to the even one
    ([0 <= n], [0 < d]). *)
Definition round_half_even (n d : Z) : Z :=
  let q := n / d in
  let r := n mod d in
  if (2 * r <? d)%Z then q
  else if (d <? 2 * r)%Z then q + 1
  else if Z.even q then q else q + 1.

(** The magnitude [m * 2^e] in hundredths, correctly rounded. *)
Definition hundredths (m : positive) (e : Z) : Z :=
  if (0 <=? e)%Z then 100 * Z.pos m * 2 ^ e
  else round_half_even (100 * Z.pos m) (2 ^ (- e)).

(** Sign, integer part, point, two digits. *)
Definition fixed2 (neg : bool) (h : Z) : string :=
  (if neg then "-" else EmptyString)
  +:+ dec (h / 100)
  +:+ String "."%char
        (String (digit_char (h mod 100 / 10))
           (String (digit_char (h mod 10)) EmptyString)).

(** The binary64 float nearest to the natural number [a] (53 significant
    bits, a tie to even): what an integer becomes before it is formatted
    with a float format. *)
Definition nearest_binary64 (a : Z) : Z :=
  let k := Z.log2 a - 52 in
  if (k <=? 0)%Z then a else round_half_even a (2 ^ k) * 2 ^ k.

Definition format_2f (x : num) : string :=
  match x with
  | NInt z => fixed2 (z <? 0)%Z (100 * nearest_binary64 (Z.abs z))
  | NFloat S754_nan => "nan"
  | NFloat (S754_infinity neg) => if neg then "-inf" else "inf"
  | NFloat (S754_zero neg) => fixed2 neg 0
  | NFloat (S754_finite neg m e) => fixed2 neg (hundredths m e)
  end.

(** *** The protein loop *)

(** [for pdb_id in result: if len(ids) < 10: ids.append(pdb_id)] *)
Definition collect_ids (result : list string) : list string :=
  fold_left
    (λ ids pdb_id, if (length ids <? 10)%nat then ids ++ [pdb_id] else ids)
    result [].

(** [Query(smiles).search()] *)
Definition query_search (E : Env) (smiles : string) : M (list string) :=
  emit (Search smiles) ;;; lift (pdb_search E smiles).

(** ** [main] *)

Definition options : list string :=
  [ "Compute Lipinski's Descriptors";
    "Predict the Compound's Activity";
    "Predict the Compound's pIC50";
    "Retrieve interacting proteins" ].

Definition lipinski_branch (E : Env) (smiles_input : string) : M unit :=
  df <- calculate_lipinski_descriptors E smiles_input ;;
  df <- lift (set_columns
                [ "Molecular Weight";
                  "Octanol-Water Partition Coefficient (LogP)";
                  "Number of Hydrogen Bond Donors";
                  "Number of Hydrogen Bond Acceptors" ] df) ;;
  emit (StHtml hide_table_row_index) ;;;
  emit (StTable df).

Definition activity_branch (E : Env) (smiles_input : string) : M unit :=
  let filename := "lipinsky_model.pkl" in
  loaded_model <- load_model E filename ;;
  X <- calculate_lipinski_descriptors E smiles_input ;;
  y_pred <- model_predict loaded_model X ;;
  b <- lift (eq_1_truth E y_pred) ;;
  if b : bool then emit (StText "Active") else emit (StText "Inactive").

(** The pIC50 branch from [pd.read_csv] on. *)
Definition pIC50_rest (E : Env) : M unit :=
  data <- read_csv E "descriptors_output.csv" ;;
  X <- lift (drop ["Name"] data) ;;
  loaded_model <- load_model E "model.pkl" ;;
  y_pred <- model_predict loaded_model X ;;
  predicted_value <- lift (first_item y_pred) ;;
  let predicted_value := format_2f predicted_value in
  emit (StText ("The pIC50 of your compound is " +:+ predicted_value)).

Definition pIC50_branch (E : Env) (smiles_input : string) : M unit :=
  let string1 := smiles_input in
  let string2 := "Compound_name" in
  let filename := "molecule.smi" in
  generate_csv_file E string1 string2 filename ;;;
  let script_path := "./padel.sh" in
  _ <- subprocess_call E ["bash"; script_path] ;;
  pIC50_rest E.

Definition proteins_branch (E : Env) (smiles_input : string) : M unit :=
  result <- query_search E smiles_input ;;
  let ids := collect_ids result in
  let ids_str := String.concat ", " ids in
  emit (StMarkdown ids_str).

(** The [if]/[elif] chain inside [try]. *)
Definition run_task (E : Env) (smiles_input selected_option : string) : M unit :=
  if String.eqb selected_option "Compute Lipinski's Descriptors"
  then lipinski_branch E smiles_input
  else if String.eqb selected_option "Predict the Compound's Activity"
  then activity_branch E smiles_input
  else if String.eqb selected_option "Predict the Compound's pIC50"
  then pIC50_branch E smiles_input
  else if String.eqb selected_option "Retrieve interacting proteins"
  then proteins_branch E smiles_input
  else ret tt.

(** What pressing "Run" does. *)
Definition on_run (E : Env) (smiles_input selected_option : string) : M unit :=
  if String.eqb smiles_input EmptyString
  then emit (StText "Enter Canonical SMILES")
  else try_except_ValueError
         (run_task E smiles_input selected_option)
         (λ e, emit (StError e)).

Definition contact : M unit :=
  emit (StWrite "---") ;;;
  emit (StHeader "Please contact us!") ;;;
  emit (StColumns 2) ;;;
  emit (StHtml contact_form) ;;;
  emit StEmpty.

(** One run of the script: [st_button] is what [st.button("Run")] returns. *)
Definition main (E : Env) (smiles_input selected_option : string) (st_button : bool) : M unit :=
  (if st_button then on_run E smiles_input selected_option else ret tt) ;;;
  contact.

(** ** Sessions *)

(** The server keeps the file system and the cache from one run of the
    script to the next, also after a run ended in an exception. *)
Definition session (E : Env) (runs : list (string * string * bool)) (w : World) : World :=
  fold_left (λ w r, (main E r.1.1 r.1.2 r.2 w).2) runs w.

(** The worlds a session reaches from a start with an empty cache. *)
Definition reachable (E : Env) (w : World) : Prop :=
  ∃ w0 runs, cache w0 = ∅ ∧ w = session E runs w0.

(** What the page shows: the events of the [st.*] calls. *)
Definition is_display (e : event) : bool :=
  match e with
  | StText _ | StError _ | StMarkdown _ | StHtml _ | StTable _
  | StWrite _ | StHeader _ | StColumns _ | StEmpty => true
  | _ => false
  end.

Definition displayed (w : World) : list event :=
  List.filter is_display (trace w).

(** The world after some more events. *)
Definition after (w : World) (es : list event) : World :=
  mkWorld (fs w) (cache w) (trace w ++ es).

(** ** A concrete deployment, for examples *)

Module Demo.

(** Ethanol is the one molecule this RDKit knows. *)
Definition ethanol_wt : spec_float := S754_finite false 6483635351041606 (-47).
Definition ethanol_logp : spec_float := S754_finite true 6456360425798343 (-62).

(** A prediction of 6.12345. *)
Definition raw_pIC50 : spec_float := S754_finite false 6894391784555466 (-50).

Definition classifier (code : Z) : Model := mkModel (λ X, inr [NInt code]).
Definition regressor (y : spec_float) : Model := mkModel (λ X, inr [NFloat y]).

Definition features : DataFrame :=
  mkDataFrame [0]
    [ ("Name", [CStr "Compound_name"]);
      ("nAcid", [CNum (NInt 0)]);
      ("ALogP", [CNum (NFloat ethanol_logp)]) ].

Definition nameless : DataFrame :=
  mkDataFrame [0] [ ("nAcid", [CNum (NInt 0)]) ].

Definition garbled : DataFrame :=
  mkDataFrame [0]
    [ ("Name", [CStr "Compound_name"]);
      ("nAcid", [CStr "abc"]);
      ("ALogP", [CNum (NFloat ethanol_logp)]) ].

Definition ethanol_smi : string :=
  "CCO" +:+ String TAB EmptyString +:+ "Compound_name" +:+ CRLF.

(** The tool computes features for ethanol and exits with 0; on any
    other input it exits with 1 and writes nothing. *)
Definition padel (argv : list string) (f : gmap string string) : Z * gmap string string :=
  if bool_decide (f !! "molecule.smi" = Some ethanol_smi)
  then (0, <["descriptors_output.csv" := "features"]> f)
  else (1, f).

(** Fifteen hits, one of them twice among the first ten. *)
Definition hits : list string :=
  ["1A00"; "1A01"; "1A02"; "1A00"; "1A04"; "1A05"; "1A06"; "1A07";
   "1A08"; "1A09"; "1A10"; "1A11"; "1A12"; "1A13"; "1A14"].

Definition env (code : Z) (y : spec_float) : Env :=
  {| Mol := unit;
     MolFromSmiles := λ s, if String.eqb s "CCO" then Some tt else None;
     MolWt := λ _, ethanol_wt;
     MolLogP := λ _, ethanol_logp;
     NumHDonors := λ _, 1;
     NumHAcceptors := λ _, 1;
     pickle_load := λ bytes,
       if String.eqb bytes "classifier" then inr (classifier code)
       else if String.eqb bytes "regressor" then inr (regressor y)
       else inl (ExternalError "UnpicklingError");
     bash := padel;
     parse_csv := λ text,
       if String.eqb text "features" then inr features
       else if String.eqb text "nameless" then inr nameless
       else if String.eqb text "garbled" then inr garbled
       else inl (ValueError "No columns to parse from file");
     pdb_search := λ s, inr hits;
     os_open_w := λ f name, Some (FileNotFoundError name);
     empty_array_truth := inr false |}.

(** A fresh server with both model files in place. *)
Definition fresh : World :=
  mkWorld {[ "lipinsky_model.pkl" := "classifier"; "model.pkl" := "regressor" ]} ∅ [].

(** The same server after an earlier pIC50 run left its output file. *)
Definition used : World :=
  mkWorld (<["descriptors_output.csv" := "features"]> (fs fresh)) ∅ [].

(** A server on which the output file lost its "Name" column. *)
Definition damaged : World :=
  mkWorld (<["descriptors_output.csv" := "nameless"]> (fs fresh)) ∅ [].

(** A server whose classifier file holds a model that answers with a
    float. *)
Definition float_classifier : World :=
  mkWorld {[ "lipinsky_model.pkl" := "regressor" ]} ∅ [].

(** A server on which the output file holds text where a number should
    be. *)
Definition garbled_output : World :=
  mkWorld (<["descriptors_output.csv" := "garbled"]> (fs fresh)) ∅ [].

(** A server whose classifier file is missing. *)
Definition no_classifier : World :=
  mkWorld {[ "model.pkl" := "regressor" ]} ∅ [].

End Demo.

(** ** Invariants *)

(** Every stored frame is what the body returns for its key. *)
Definition cache_ok (E : Env) (c : gmap string DataFrame) : Prop :=
  ∀ s df, c !! s = Some df → lipinski_frame E <$> MolFromSmiles E s = Some df.

Definition coherent (E : Env) (w : World) : Prop := cache_ok E (cache w).

(** A computation keeps a property of worlds. *)
Definition preserves (P : World → Prop) {A} (m : M A) : Prop :=
  ∀ w, P w → P (m w).2.

(** ** Numeric codes *)

(** A NumPy scalar as NumPy holds it: a float is a binary64 in normal
    form. *)
Definition proper (x : num) : Prop :=
  match x with
  | NInt _ => True
  | NFloat f => valid_binary 53 1024 f = true
  end.

(** The number is one: the integer 1, or the float whose value
    [m * 2^e] is 1. *)
Definition is_one (x : num) : Prop :=
  match x with
  | NInt z => z = 1
  | NFloat (S754_finite false m e) => e ≤ 0 ∧ Z.pos m = 2 ^ (- e)
  | NFloat _ => False
  end.

(** ** The spec's sentences, as worded *)

(** Events of the descriptor code and of model inference. *)
Definition descriptor_or_inference (e : event) : bool :=
  match e with
  | Describe _ | Predict _ => true
  | _ => false
  end.

(** "For an invalid string the parser's failure is what the run reports,
    and no descriptor or model code runs, in any task branch." *)
Definition invalid_input_claim (E : Env) (smiles selected_option : string) (w : World) : Prop :=
  MolFromSmiles E smiles = None →
  let r := on_run E smiles selected_option w in
  In (StError "Invalid SMILES string") (trace r.2)
  ∧ Forall (λ e, descriptor_or_inference e = false) (trace r.2).

(** *** Failures at the boundary *)

(** "Every failure of a task branch is caught at the boundary and turned
    into one message." *)
Definition failures_caught_claim (E : Env) (smiles selected_option : string) (w : World) : Prop :=
  ∀ e w', run_task E smiles selected_option w = (inl e, w') →
          ∃ msg, on_run E smiles selected_option w = (inr tt, after w' [StError msg]).

(** A computation shows nothing. *)
Definition silent {A} (m : M A) : Prop :=
  ∀ w, displayed (m w).2 = displayed w.

(** A computation that fails has shown nothing. *)
Definition fails_silently {A} (m : M A) : Prop :=
  ∀ w e, (m w).1 = inl e → displayed (m w).2 = displayed w.

Definition never_fails {A} (m : M A) : Prop :=
  ∀ w, ∃ a, (m w).1 = inr a.

(** *** The external tool *)

(** The text [main] writes to [molecule.smi]. *)
Definition smi_text (smiles : string) : string :=
  csv_writerows [[smiles +:+ String TAB EmptyString +:+ "Compound_name"]].

(** What [bash ./padel.sh] answers when [main] calls it. *)
Definition tool_run (E : Env) (smiles : string) (w : World) : Z * gmap string string :=
  bash E ["bash"; "./padel.sh"] (<["molecule.smi" := smi_text smiles]> (fs w)).

(** The world in which the pIC50 branch goes on to read the tool's output. *)
Definition after_tool (E : Env) (smiles : string) (w : World) : World :=
  mkWorld (tool_run E smiles w).2 (cache w)
    (trace w ++ [FileWrite "molecule.smi" (smi_text smiles);
                 Subprocess ["bash"; "./padel.sh"]]).

(** The same collaborators, but the tool exits with [status]. *)
Definition with_exit_status (status : Z) (E : Env) : Env :=
  {| Mol := Mol E;
     MolFromSmiles := MolFromSmiles E;
     MolWt := MolWt E;
     MolLogP := MolLogP E;
     NumHDonors := NumHDonors E;
     NumHAcceptors := NumHAcceptors E;
     pickle_load := pickle_load E;
     bash := λ argv f, (status, (bash E argv f).2);
     parse_csv := parse_csv E;
     pdb_search := pdb_search E;
     os_open_w := os_open_w E;
     empty_array_truth := empty_array_truth E |}.

Definition inference (e : event) : bool :=
  match e with
  | Predict _ => true
  | _ => false
  end.

(** "A non-zero exit status of the tool is reported as a failure and no
    inference is made." *)
Definition external_tool_failure_claim (E : Env) (smiles : string) (w : World) : Prop :=
  (tool_run E smiles w).1 ≠ 0 →
  let r := on_run E smiles "Predict the Compound's pIC50" w in
  (r.1 ≠ inr tt ∨ ∃ msg, In (StError msg) (trace r.2))
  ∧ Forall (λ e, inference e = false) (trace r.2).

(** The ways in which the code fails to obtain the features: the output
    file is missing, or pandas cannot read it, or the table read has no
    "Name" column; with the exception the code raises in each case. *)
Inductive FeatureParseFailure (E : Env) (f : gmap string string) : exn → Prop :=
| output_missing :
    f !! "descriptors_output.csv" = None →
    FeatureParseFailure E f (FileNotFoundError "descriptors_output.csv")
| output_unreadable text e :
    f !! "descriptors_output.csv" = Some text →
    parse_csv E text = inl e →
    FeatureParseFailure E f e
| name_column_missing text data :
    f !! "descriptors_output.csv" = Some text →
    parse_csv E text = inr data →
    "Name" ∉ column_names data →
    FeatureParseFailure E f (KeyError "Name").

(** A cell that holds text where a number is expected. *)
Definition unparsable (c : cell) : bool :=
  match c with
  | CStr _ => true
  | CNum _ => false
  end.

(** A table read from the output file is malformed when a column other
    than "Name" holds an unparsable value. *)
Definition malformed (data : DataFrame) : bool :=
  existsb (λ col, negb (String.eqb col.1 "Name") && existsb unparsable col.2)
          (df_columns data).

(** "When the output file is missing, unreadable, without its Name
    column or otherwise malformed, the branch fails and no inference is
    made." *)
Definition feature_parse_claim (E : Env) (smiles : string) (w : World) : Prop :=
  let f := fs (after_tool E smiles w) in
  (∃ e, FeatureParseFailure E f e)
  ∨ (∃ text data, f !! "descriptors_output.csv" = Some text
                  ∧ parse_csv E text = inr data ∧ malformed data = true) →
  let r := run_task E smiles "Predict the Compound's pIC50" w in
  (∃ e, r.1 = inl e)
  ∧ Forall (λ e, inference e = false) (trace r.2).

(** What the boundary makes of an exception [e] raised in world [w]. *)
Definition at_boundary (e : exn) (w : World) : result unit * World :=
  match e with
  | ValueError msg => (inr tt, after w [StError msg])
  | _ => (inl e, w)
  end.

(** *** Reading a tab-separated file *)

(** The pieces of [s] between the occurrences of [sep]. *)
Fixpoint split_on (sep : ascii) (s : string) : list string :=
  match s with
  | EmptyString => [EmptyString]
  | String c s' =>
      if Ascii.eqb c sep then EmptyString :: split_on sep s'
      else match split_on sep s' with
           | piece :: pieces => String c piece :: pieces
           | [] => [String c EmptyString]
           end
  end.

(** A line without the carriage return at its end, if it has one. *)
Fixpoint chomp_cr (line : string) : string :=
  match line with
  | EmptyString => EmptyString
  | String c EmptyString => if Ascii.eqb c CR then EmptyString else line
  | String c rest => String c (chomp_cr rest)
  end.

(** The text after the last line terminator is a line only if it is not
    empty. *)
Fixpoint drop_last_empty (pieces : list string) : list string :=
  match pieces with
  | [] => []
  | [EmptyString] => []
  | piece :: pieces' => piece :: drop_last_empty pieces'
  end.

Definition text_lines (text : string) : list string :=
  map chomp_cr (drop_last_empty (split_on LF text)).

(** The rows of a tab-separated text without header: one per line, the
    fields of a row being the pieces between its tabs. *)
Definition tsv_rows (text : string) : list (list string) :=
  map (split_on TAB) (text_lines text).

(** "The file written holds one row of two fields, the molecular string
    and the placeholder name." *)
Definition intermediate_file_claim (E : Env) (string1 string2 : string) : Prop :=
  ∀ filename w,
    open_w E (fs w) filename = None →
    ∃ text, fs (generate_csv_file E string1 string2 filename w).2 !! filename = Some text
            ∧ tsv_rows text = [[string1; string2]].

(** A string without a comma, a quote, a tab or a line break. *)
Fixpoint plain (s : string) : bool :=
  match s with
  | EmptyString => true
  | String c s' => negb (csv_special c) && negb (Ascii.eqb c TAB) && plain s'
  end.

Fixpoint free_of (sep : ascii) (s : string) : bool :=
  match s with
  | EmptyString => true
  | String c s' => negb (Ascii.eqb c sep) && free_of sep s'
  end.

(** *** Reading a number with two decimals *)

Definition digit_of_char (c : ascii) : option Z :=
  let n := Z.of_N (N_of_ascii c) in
  if (48 <=? n) && (n <=? 57) then Some (n - 48) else None.

(** The text before and after the first point. *)
Fixpoint split_point (s : string) : option (string * string) :=
  match s with
  | EmptyString => None
  | String c s' =>
      if Ascii.eqb c "."%char then Some (EmptyString, s')
      else match split_point s' with
           | Some (before, behind) => Some (String c before, behind)
           | None => None
           end
  end.

(** A text of the form digits.dd is read as its number of hundredths;
    any other text is not a number with two decimals. *)
Definition read_unsigned2 (body : string) : option Z :=
  match split_point body with
  | Some (int_part, String a (String b EmptyString)) =>
      match NilZero.uint_of_string int_part, digit_of_char a, digit_of_char b with
      | Some d, Some x, Some y => Some (100 * Z.of_N (N.of_uint d) + 10 * x + y)
      | _, _, _ => None
      end
  | _ => None
  end.

(** The same with a sign in front: the sign and the hundredths. *)
Definition read_fixed2 (s : string) : option (bool * Z) :=
  match s with
  | String c s' =>
      if Ascii.eqb c "-"%char then pair true <$> read_unsigned2 s'
      else pair false <$> read_unsigned2 s
  | EmptyString => None
  end.

Definition finite (y : spec_float) : bool :=
  match y with
  | S754_zero _ | S754_finite _ _ _ => true
  | S754_infinity _ | S754_nan => false
  end.

(** [h] hundredths is nearest to [m * 2^e], and even if two are equally
    near: with [100 * m * 2^e = num / den], the distance [|num/den - h|]
    is at most a half. *)
Definition nearest_hundredth (m : positive) (e : Z) (h : Z) : Prop :=
  let num := 100 * Z.pos m * 2 ^ Z.max 0 e in
  let den := 2 ^ Z.max 0 (- e) in
  0 ≤ h
  ∧ Z.abs (2 * num - 2 * h * den) ≤ den
  ∧ (Z.abs (2 * num - 2 * h * den) = den → Z.even h = true).

(** The float [y] rounded to two decimals is [h] hundredths with the sign
    [neg]. *)
Definition rounded (y : spec_float) (neg : bool) (h : Z) : Prop :=
  match y with
  | S754_zero s => neg = s ∧ h = 0
  | S754_finite s m e => neg = s ∧ nearest_hundredth m e h
  | S754_infinity _ | S754_nan => False
  end.

(** "Whatever the prediction, the value shown has exactly two decimals." *)
Definition two_decimals_claim (E : Env) (smiles : string) (w : World) : Prop :=
  ∀ value,
    In (StText ("The pIC50 of your compound is " +:+ value))
       (trace (on_run E smiles "Predict the Compound's pIC50" w).2) →
    ∃ neg h, read_fixed2 value = Some (neg, h).

(** ** What runs show *)

(** What the contact section shows. *)
Definition contact_events : list event :=
  [StWrite "---"; StHeader "Please contact us!"; StColumns 2;
   StHtml contact_form; StEmpty].

(** The table the descriptors branch shows for a molecule: the frame of
    the engine under the four long column names. *)
Definition lipinski_table (E : Env) (mol : Mol E) : DataFrame :=
  mkDataFrame [0]
    [ ("Molecular Weight", [CNum (NFloat (MolWt E mol))]);
      ("Octanol-Water Partition Coefficient (LogP)", [CNum (NFloat (MolLogP E mol))]);
      ("Number of Hydrogen Bond Donors", [CNum (NInt (NumHDonors E mol))]);
      ("Number of Hydrogen Bond Acceptors", [CNum (NInt (NumHAcceptors E mol))]) ].

(** A computation leaves the files as they are. *)
Definition keeps_files {A} (m : M A) : Prop :=
  ∀ w, fs (m w).2 = fs w.

(** Events of the descriptor engine. *)
Definition engine_event (e : event) : bool :=
  match e with
  | MolParse _ | Describe _ => true
  | _ => false
  end.

(** * Properties *)

(** ** The empty input *)

(** C10: with an empty input string, pressing "Run" shows the prompt and
    does nothing else, whatever task is selected: the trace gains the
    prompt only (no parse, no model file, no subprocess, no query), and
    the rest of the run is the contact section. *)
Theorem empty_input_only_prompts (E : Env) (selected_option : string) (w : World) :
  on_run E EmptyString selected_option w
    = (inr tt, after w [StText "Enter Canonical SMILES"])
  ∧ main E EmptyString selected_option true w
    = (inr tt, after w [StText "Enter Canonical SMILES"; StWrite "---";
                        StHeader "Please contact us!"; StColumns 2;
                        StHtml contact_form; StEmpty]).
Proof.
  split; [reflexivity |].
  unfold main, contact, on_run, bind, emit, after; cbn [String.eqb].
  cbn. by rewrite <- !app_assoc.
Qed.

(** ** The protein loop *)

Lemma collect_loop (result acc : list string) :
  fold_left
    (λ ids pdb_id, if (length ids <? 10)%nat then ids ++ [pdb_id] else ids)
    result acc
  = acc ++ take (10 - length acc) result.
Proof.
  revert acc; induction result as [|x result IH]; intros acc; cbn [fold_left].
  - by rewrite take_nil, app_nil_r.
  - rewrite IH. destruct (Nat.ltb_spec (length acc) 10) as [Hlt|Hge].
    + rewrite length_app; cbn [length].
      replace (10 - length acc)%nat with (S (10 - (length acc + 1)))%nat by lia.
      cbn [take]. by rewrite <- app_assoc.
    + by replace (10 - length acc)%nat with 0%nat by lia.
Qed.

Lemma collect_ids_take (result : list string) :
  collect_ids result = take 10 result.
Proof. unfold collect_ids. by rewrite collect_loop. Qed.

(** C5: whatever sequence the search yields, the retriever keeps its
    first [min 10 n] identifiers, in order and with repetitions as they
    come, and shows them joined by commas; an empty sequence is shown as
    the empty string, not as a failure. *)
Theorem retriever_keeps_first_ten (E : Env) (smiles : string) (ids : list string) (w : World) :
  smiles ≠ EmptyString →
  pdb_search E smiles = inr ids →
  collect_ids ids = take 10 ids
  ∧ length (collect_ids ids) = Nat.min 10 (length ids)
  ∧ (∀ i, (i < Nat.min 10 (length ids))%nat → collect_ids ids !! i = ids !! i)
  ∧ on_run E smiles "Retrieve interacting proteins" w
    = (inr tt, after w [Search smiles; StMarkdown (String.concat ", " (take 10 ids))]).
Proof.
  intros Hne Hs. rewrite collect_ids_take. repeat split.
  - by rewrite length_take.
  - intros i Hi. apply lookup_take_lt. lia.
  - unfold on_run. destruct (String.eqb_spec smiles EmptyString) as [|_]; [done|].
    unfold try_except_ValueError, run_task; cbn [String.eqb Ascii.eqb Bool.eqb].
    unfold proteins_branch, query_search, bind, emit, lift, after; cbn.
    rewrite Hs, collect_ids_take. by rewrite <- app_assoc.
Qed.

Lemma retriever_keeps_first_ten_witness :
  on_run (Demo.env 1 Demo.raw_pIC50) "CCO" "Retrieve interacting proteins" Demo.fresh
  = (inr tt,
     after Demo.fresh
       [Search "CCO";
        StMarkdown "1A00, 1A01, 1A02, 1A00, 1A04, 1A05, 1A06, 1A07, 1A08, 1A09"]).
Proof.
  refine (proj2 (proj2 (proj2
    (retriever_keeps_first_ten (Demo.env 1 Demo.raw_pIC50) "CCO" Demo.hits Demo.fresh _ _)))).
  - discriminate.
  - reflexivity.
Defined.

(** ** Running the monad *)

Create HintDb preserves.

Ltac run_step :=
  unfold bind, ret, raise, lift, emit, get_fs, put_fs, get_cache, put_cache, after;
  cbn [fst snd fs cache trace].

Lemma bind_inl {A B} (m : M A) (k : A → M B) w e w' :
  m w = (inl e, w') → bind m k w = (inl e, w').
Proof. unfold bind. by intros ->. Qed.

Lemma bind_inr {A B} (m : M A) (k : A → M B) w a w' :
  m w = (inr a, w') → bind m k w = k a w'.
Proof. unfold bind. by intros ->. Qed.

Section Preservation.
Context (P : World → Prop).

Lemma preserves_ret {A} (a : A) : preserves P (ret a).
Proof. by intros w. Qed.

Lemma preserves_raise {A} (e : exn) : preserves P (@raise A e).
Proof. by intros w. Qed.

Lemma preserves_lift {A} (r : result A) : preserves P (lift r).
Proof. by intros w. Qed.

Lemma preserves_get_fs : preserves P get_fs.
Proof. by intros w. Qed.

Lemma preserves_get_cache : preserves P get_cache.
Proof. by intros w. Qed.

Lemma preserves_bind {A B} (m : M A) (k : A → M B) :
  preserves P m → (∀ a, preserves P (k a)) → preserves P (bind m k).
Proof.
  intros Hm Hk w Hw. unfold bind. specialize (Hm w Hw).
  destruct (m w) as [[e|a] w1]; [done|]. by apply Hk.
Qed.

Lemma preserves_try (body : M unit) (handler : string → M unit) :
  preserves P body → (∀ msg, preserves P (handler msg)) →
  preserves P (try_except_ValueError body handler).
Proof.
  intros Hb Hh w Hw. unfold try_except_ValueError. specialize (Hb w Hw).
  destruct (body w) as [[[]|a] w1]; try done. by apply Hh.
Qed.

(** A property kept by showing or logging an event, by a change of the
    files and by a call of the descriptor engine is kept by a whole run
    of the script. *)
Context (E : Env).
Hypothesis P_emit : ∀ e, preserves P (emit e).
Hypothesis P_put_fs : ∀ f, preserves P (put_fs f).
Hypothesis P_calculate : ∀ s, preserves P (calculate_lipinski_descriptors E s).

Hint Resolve preserves_ret preserves_raise preserves_lift preserves_get_fs
  preserves_get_cache preserves_try P_emit P_put_fs P_calculate : preserves.

Ltac preserves_tac :=
  repeat first
    [ solve [auto with preserves]
    | apply preserves_bind; [|intros ?]
    | case_match ].

Lemma load_model_preserves path : preserves P (load_model E path).
Proof. unfold load_model. preserves_tac. Qed.

Lemma read_csv_preserves path : preserves P (read_csv E path).
Proof. unfold read_csv. preserves_tac. Qed.

Lemma generate_csv_file_preserves s1 s2 path :
  preserves P (generate_csv_file E s1 s2 path).
Proof. unfold generate_csv_file. preserves_tac. Qed.

Lemma subprocess_call_preserves argv : preserves P (subprocess_call E argv).
Proof. unfold subprocess_call. preserves_tac. Qed.

Hint Resolve load_model_preserves read_csv_preserves
  generate_csv_file_preserves subprocess_call_preserves : preserves.

Lemma pIC50_rest_preserves : preserves P (pIC50_rest E).
Proof. unfold pIC50_rest, model_predict. preserves_tac. Qed.

Lemma run_task_preserves s opt : preserves P (run_task E s opt).
Proof.
  unfold run_task, lipinski_branch, activity_branch, pIC50_branch,
    proteins_branch, model_predict, query_search.
  preserves_tac.
Qed.

Lemma on_run_preserves s opt : preserves P (on_run E s opt).
Proof. unfold on_run. pose proof (run_task_preserves s opt). preserves_tac. Qed.

Lemma main_preserves s opt button : preserves P (main E s opt button).
Proof.
  unfold main, contact. pose proof (on_run_preserves s opt). preserves_tac.
Qed.
End Preservation.

(** ** The cache of [calculate_lipinski_descriptors] *)

Section Cache.
Context (E : Env).

Abbreviation coherent := (coherent E).

Lemma cache_ok_empty : cache_ok E ∅.
Proof. intros s df. by rewrite lookup_empty. Qed.

Lemma cache_ok_insert c s mol :
  cache_ok E c → MolFromSmiles E s = Some mol →
  cache_ok E (<[s := lipinski_frame E mol]> c).
Proof.
  intros Hc Hs s' df. rewrite lookup_insert. case_decide as Heq.
  - intros [= <-]. subst s'. by rewrite Hs.
  - apply Hc.
Qed.

Lemma cache_ok_invalid c s :
  cache_ok E c → MolFromSmiles E s = None → c !! s = None.
Proof.
  intros Hc Hs. destruct (c !! s) as [df|] eqn:Hl; [|done].
  apply Hc in Hl. by rewrite Hs in Hl.
Qed.

Lemma calculate_hit s df w :
  cache w !! s = Some df →
  calculate_lipinski_descriptors E s w = (inr df, w).
Proof.
  intros Hl. unfold calculate_lipinski_descriptors. run_step. by rewrite Hl.
Qed.

Lemma calculate_miss_valid s mol w :
  cache w !! s = None → MolFromSmiles E s = Some mol →
  calculate_lipinski_descriptors E s w
  = (inr (lipinski_frame E mol),
     mkWorld (fs w) (<[s := lipinski_frame E mol]> (cache w))
       (trace w ++ [MolParse s; Describe s])).
Proof.
  intros Hl Hs. unfold calculate_lipinski_descriptors, lipinski_body.
  run_step. rewrite Hl. run_step. rewrite Hs. run_step.
  by rewrite <- app_assoc.
Qed.

Lemma calculate_miss_invalid s w :
  cache w !! s = None → MolFromSmiles E s = None →
  calculate_lipinski_descriptors E s w
  = (inl (ValueError "Invalid SMILES string"), after w [MolParse s]).
Proof.
  intros Hl Hs. unfold calculate_lipinski_descriptors, lipinski_body.
  run_step. rewrite Hl. run_step. by rewrite Hs.
Qed.

(** The three ways a call can go. *)
Lemma calculate_cases s w :
  (∃ df, cache w !! s = Some df
         ∧ calculate_lipinski_descriptors E s w = (inr df, w))
  ∨ (∃ mol, cache w !! s = None ∧ MolFromSmiles E s = Some mol
            ∧ calculate_lipinski_descriptors E s w
              = (inr (lipinski_frame E mol),
                 mkWorld (fs w) (<[s := lipinski_frame E mol]> (cache w))
                   (trace w ++ [MolParse s; Describe s])))
  ∨ (cache w !! s = None ∧ MolFromSmiles E s = None
     ∧ calculate_lipinski_descriptors E s w
       = (inl (ValueError "Invalid SMILES string"), after w [MolParse s])).
Proof.
  destruct (cache w !! s) as [df|] eqn:Hl.
  - left. eauto using calculate_hit.
  - destruct (MolFromSmiles E s) as [mol|] eqn:Hs.
    + right; left. eauto using calculate_miss_valid.
    + right; right. eauto using calculate_miss_invalid.
Qed.

(** In a coherent world the result is a function of the string alone. *)
Lemma calculate_result s w :
  coherent w →
  (calculate_lipinski_descriptors E s w).1
  = match MolFromSmiles E s with
    | Some mol => inr (lipinski_frame E mol)
    | None => inl (ValueError "Invalid SMILES string")
    end.
Proof.
  intros Hw.
  destruct (calculate_cases s w)
    as [(df & Hl & ->)|[(mol & Hl & Hs & ->)|(Hl & Hs & ->)]]; cbn [fst].
  - apply Hw in Hl. destruct (MolFromSmiles E s); by inversion Hl.
  - by rewrite Hs.
  - by rewrite Hs.
Qed.

Lemma calculate_coherent s : preserves coherent (calculate_lipinski_descriptors E s).
Proof.
  intros w Hw.
  destruct (calculate_cases s w)
    as [(df & Hl & ->)|[(mol & Hl & Hs & ->)|(Hl & Hs & ->)]]; cbn [snd];
    [done| |done].
  by apply cache_ok_insert.
Qed.

Lemma main_coherent s opt button : preserves coherent (main E s opt button).
Proof.
  apply main_preserves; [by intros e w..|apply calculate_coherent].
Qed.

Lemma session_coherent runs w : coherent w → coherent (session E runs w).
Proof.
  revert w; induction runs as [|[[s opt] b] runs IH]; intros w Hw; [done|].
  apply IH. by apply main_coherent.
Qed.

Lemma reachable_coherent w : reachable E w → coherent w.
Proof.
  intros (w0 & runs & H0 & ->). apply session_coherent.
  unfold coherent. rewrite H0. apply cache_ok_empty.
Qed.
End Cache.

(** ** Dispatch *)

Lemma on_run_nonempty (E : Env) (smiles opt : string) (w : World) :
  smiles ≠ EmptyString →
  on_run E smiles opt w
  = try_except_ValueError (run_task E smiles opt) (λ e, emit (StError e)) w.
Proof.
  intros Hne. unfold on_run.
  by destruct (String.eqb_spec smiles EmptyString).
Qed.

Lemma displayed_after (w : World) (es : list event) :
  displayed (after w es) = displayed w ++ List.filter is_display es.
Proof. unfold displayed, after; cbn [trace]. apply List.filter_app. Qed.

Lemma reachable_fresh (E : Env) (w : World) : cache w = ∅ → reachable E w.
Proof. intros Hc. by exists w, []. Qed.

(** ** Determinism of the descriptor engine *)

(** C9: in any two states of the server, and again right after a first
    call, the engine returns for a valid string the same one-row frame,
    the four descriptors of the molecule in the order MW, LogP,
    NumHDonors, NumHAcceptors; the result depends on the string only (not
    on the files or the history), and the call touches no file. *)
Theorem lipinski_deterministic (E : Env) (smiles : string) (mol : Mol E) (w w' : World) :
  reachable E w → reachable E w' →
  MolFromSmiles E smiles = Some mol →
  let first := calculate_lipinski_descriptors E smiles w in
  let second := calculate_lipinski_descriptors E smiles first.2 in
  first.1 = inr (lipinski_frame E mol)
  ∧ second.1 = first.1
  ∧ (calculate_lipinski_descriptors E smiles w').1 = first.1
  ∧ fs first.2 = fs w
  ∧ n_rows (lipinski_frame E mol) = 1%nat
  ∧ column_names (lipinski_frame E mol) = ["MW"; "LogP"; "NumHDonors"; "NumHAcceptors"].
Proof.
  intros Hw Hw' Hs first second.
  apply reachable_coherent in Hw, Hw'.
  assert (Hw1 : coherent E first.2) by by apply calculate_coherent.
  subst first second.
  rewrite !calculate_result, Hs by done.
  repeat split.
  destruct (cache w !! smiles) as [df|] eqn:Hl.
  - by rewrite (calculate_hit _ _ _ _ Hl).
  - by rewrite (calculate_miss_valid _ _ _ _ Hl Hs).
Qed.

Lemma lipinski_deterministic_witness :
  (calculate_lipinski_descriptors (Demo.env 1 Demo.raw_pIC50) "CCO"
     (calculate_lipinski_descriptors (Demo.env 1 Demo.raw_pIC50) "CCO" Demo.fresh).2).1
  = (calculate_lipinski_descriptors (Demo.env 1 Demo.raw_pIC50) "CCO" Demo.fresh).1.
Proof.
  refine (proj1 (proj2
    (lipinski_deterministic (Demo.env 1 Demo.raw_pIC50) "CCO" tt Demo.fresh Demo.used _ _ _))).
  - apply reachable_fresh. reflexivity.
  - apply reachable_fresh. reflexivity.
  - reflexivity.
Defined.

(** ** Invalid strings *)

(** C2, the sentence as worded fails: the pIC50 branch never parses its
    input, so a string RDKit rejects still reaches the regressor (here on
    the output file an earlier run left behind). *)
Lemma invalid_input_claim_fails_for_pIC50 :
  ¬ invalid_input_claim (Demo.env 1 Demo.raw_pIC50)
      "not a molecule" "Predict the Compound's pIC50" Demo.used.
Proof.
  intros H. destruct (H eq_refl) as [_ Hall].
  vm_compute in Hall.
  repeat match goal with
         | H : Forall _ (_ :: _) |- _ => inversion H; clear H; subst
         end.
  discriminate.
Qed.

Lemma load_model_ok (E : Env) (path bytes : string) (model : Model) (w : World) :
  fs w !! path = Some bytes → pickle_load E bytes = inr model →
  load_model E path w = (inr model, after w [PickleLoad path]).
Proof.
  intros Hf Hp. unfold load_model. run_step. rewrite Hf. run_step. by rewrite Hp.
Qed.

Lemma after_after (w : World) (es es' : list event) :
  after (after w es) es' = after w (es ++ es').
Proof. unfold after; cbn. by rewrite app_assoc. Qed.

(** C2, as the code has it: for a non-empty string that RDKit rejects,
    the engine raises the one failure [ValueError "Invalid SMILES string"]
    after the parse alone; the descriptors branch shows that message and
    nothing else; the activity branch, which loads its model first, shows
    it once the model is loaded; and in neither branch do the descriptor
    functions or [predict] run. *)
Theorem invalid_smiles_rejected (E : Env) (smiles : string) (w : World) :
  reachable E w →
  smiles ≠ EmptyString →
  MolFromSmiles E smiles = None →
  calculate_lipinski_descriptors E smiles w
    = (inl (ValueError "Invalid SMILES string"), after w [MolParse smiles])
  ∧ on_run E smiles "Compute Lipinski's Descriptors" w
    = (inr tt, after w [MolParse smiles; StError "Invalid SMILES string"])
  ∧ (∀ bytes model,
       fs w !! "lipinsky_model.pkl" = Some bytes →
       pickle_load E bytes = inr model →
       on_run E smiles "Predict the Compound's Activity" w
       = (inr tt, after w [PickleLoad "lipinsky_model.pkl"; MolParse smiles;
                           StError "Invalid SMILES string"]))
  ∧ (∃ es,
       trace (on_run E smiles "Predict the Compound's Activity" w).2 = trace w ++ es
       ∧ Forall (λ e, descriptor_or_inference e = false) es).
Proof.
  intros Hw Hne Hs. apply reachable_coherent in Hw.
  pose proof (cache_ok_invalid E _ _ Hw Hs) as Hl.
  assert (Hcalc : ∀ es, calculate_lipinski_descriptors E smiles (after w es)
            = (inl (ValueError "Invalid SMILES string"), after w (es ++ [MolParse smiles]))).
  { intros es. rewrite calculate_miss_invalid by done. by rewrite after_after. }
  split; [|split; [|split]].
  - by apply calculate_miss_invalid.
  - rewrite on_run_nonempty by done.
    unfold try_except_ValueError, run_task; cbn [String.eqb Ascii.eqb Bool.eqb].
    unfold lipinski_branch.
    rewrite (bind_inl _ _ _ _ _ (calculate_miss_invalid E _ _ Hl Hs)).
    unfold emit, after; cbn. by rewrite <- app_assoc.
  - intros bytes model Hf Hp. rewrite on_run_nonempty by done.
    unfold try_except_ValueError, run_task; cbn [String.eqb Ascii.eqb Bool.eqb].
    unfold activity_branch.
    rewrite (bind_inr _ _ _ _ _ (load_model_ok E _ _ _ _ Hf Hp)).
    rewrite (bind_inl _ _ _ _ _ (Hcalc _)).
    unfold emit, after; cbn. by rewrite <- app_assoc.
  - rewrite on_run_nonempty by done.
    unfold try_except_ValueError, run_task; cbn [String.eqb Ascii.eqb Bool.eqb].
    unfold activity_branch, load_model. run_step.
    destruct (fs w !! "lipinsky_model.pkl") as [bytes|] eqn:Hf; run_step.
    + destruct (pickle_load E bytes) as [e|model] eqn:Hp.
      * destruct e; cbn; eexists; (split; [by rewrite <- ?app_assoc|]);
          repeat constructor.
      * fold (after w [PickleLoad "lipinsky_model.pkl"]).
        rewrite (Hcalc _). cbn. eexists; split; [by rewrite <- ?app_assoc|].
        repeat constructor.
    + exists []. by rewrite app_nil_r.
Qed.

Lemma invalid_smiles_rejected_witness :
  on_run (Demo.env 1 Demo.raw_pIC50) "not a molecule" "Compute Lipinski's Descriptors" Demo.fresh
  = (inr tt, after Demo.fresh [MolParse "not a molecule"; StError "Invalid SMILES string"]).
Proof.
  refine (proj1 (proj2
    (invalid_smiles_rejected (Demo.env 1 Demo.raw_pIC50) "not a molecule" Demo.fresh _ _ _))).
  - apply reachable_fresh. reflexivity.
  - discriminate.
  - reflexivity.
Defined.

(** ** The activity label *)

Lemma calculate_valid (E : Env) (smiles : string) (mol : Mol E) (w : World) :
  coherent E w → MolFromSmiles E smiles = Some mol →
  ∃ w', calculate_lipinski_descriptors E smiles w = (inr (lipinski_frame E mol), w')
        ∧ fs w' = fs w ∧ displayed w' = displayed w.
Proof.
  intros Hw Hs. destruct (cache w !! smiles) as [df|] eqn:Hl.
  - exists w. rewrite (calculate_hit _ _ _ _ Hl). apply Hw in Hl.
    rewrite Hs in Hl. by inversion Hl.
  - eexists. rewrite (calculate_miss_valid _ _ _ _ Hl Hs). repeat split.
    unfold displayed; cbn [trace]. rewrite List.filter_app; cbn. by rewrite app_nil_r.
Qed.

Lemma digits2_pos_size (m : positive) : digits2_pos m = Pos.size m.
Proof. induction m as [m IH|m IH|]; cbn; by rewrite ?IH. Qed.

Lemma size_of_power (m : positive) (k : Z) :
  0 ≤ k → Z.pos m = 2 ^ k → Z.pos (Pos.size m) = k + 1.
Proof.
  intros Hk Hm.
  pose proof (Pos.size_gt m) as Hgt. pose proof (Pos.size_le m) as Hle.
  apply Pos2Z.pos_lt_pos in Hgt. apply Pos2Z.pos_le_pos in Hle.
  rewrite Pos2Z.inj_pow in Hgt, Hle.
  change (Z.pos m~0) with (2 * Z.pos m) in Hle. rewrite Hm in Hgt, Hle.
  apply Z.pow_lt_mono_r_iff in Hgt; [|lia..].
  replace (2 * 2 ^ k) with (2 ^ (k + 1)) in Hle by (rewrite Z.pow_add_r; lia).
  apply Z.pow_le_mono_r_iff in Hle; lia.
Qed.

(** The only binary64 in normal form with the value one is [float_one]. *)
Lemma one_is_float_one (m : positive) (e : Z) :
  valid_binary 53 1024 (S754_finite false m e) = true →
  e ≤ 0 → Z.pos m = 2 ^ (- e) →
  e = -52 ∧ m = 4503599627370496%positive.
Proof.
  intros Hv He Hm. cbn [valid_binary] in Hv. unfold bounded, canonical_mantissa in Hv.
  apply andb_prop in Hv as [Hc _]. apply Z.eqb_eq in Hc.
  rewrite digits2_pos_size, (size_of_power m (- e)) in Hc by lia.
  unfold fexp, emin in Hc.
  assert (e = -52) as -> by lia. split; [done|].
  apply Pos2Z.inj. by rewrite Hm.
Qed.

(** The comparison with [1] holds exactly of the numbers that are one. *)
Lemma num_eq_1_spec (x : num) : proper x → num_eq_1 x = true ↔ is_one x.
Proof.
  destruct x as [z|f]; cbn [num_eq_1 is_one proper].
  - intros _. apply Z.eqb_eq.
  - intros Hv. destruct f as [s0|s0| |[] m e].
    + done.
    + by destruct s0.
    + done.
    + done.
    + split.
      * unfold SFeqb, SFcompare, float_one.
        destruct (Z.compare_spec e (-52)) as [->|?|?]; try discriminate.
        destruct (Pos.compare_cont Eq m 4503599627370496) eqn:Hc; try discriminate.
        apply Pos.compare_eq in Hc as ->. intros _. split; [lia|reflexivity].
      * intros [He Hm]. destruct (one_is_float_one m e Hv He Hm) as [-> ->].
        reflexivity.
Qed.

(** C1: when the classifier answers with one numeric code for the
    descriptors of a valid molecule, be it an integer or a float, the
    activity branch shows one label: "Active" if the code is the number
    one and "Inactive" for every other code. *)
Theorem activity_label (E : Env) (smiles bytes : string) (mol : Mol E)
    (model : Model) (code : num) (w : World) :
  reachable E w →
  smiles ≠ EmptyString →
  fs w !! "lipinsky_model.pkl" = Some bytes →
  pickle_load E bytes = inr model →
  MolFromSmiles E smiles = Some mol →
  predict model (lipinski_frame E mol) = inr [code] →
  proper code →
  let r := on_run E smiles "Predict the Compound's Activity" w in
  r.1 = inr tt
  ∧ (is_one code → displayed r.2 = displayed w ++ [StText "Active"])
  ∧ (¬ is_one code → displayed r.2 = displayed w ++ [StText "Inactive"])
  ∧ (∀ z, code = NInt z → (is_one code ↔ z = 1)).
Proof.
  intros Hw Hne Hf Hp Hs Hy Hcode r. apply reachable_coherent in Hw.
  destruct (calculate_valid E smiles mol (after w [PickleLoad "lipinsky_model.pkl"]))
    as (w' & Hcalc & _ & Hd); [done..|].
  rewrite displayed_after in Hd; cbn in Hd; rewrite app_nil_r in Hd.
  assert (Hr : r = (inr tt, after w' [Predict (lipinski_frame E mol);
                     StText (if num_eq_1 code then "Active" else "Inactive")])).
  { subst r. rewrite on_run_nonempty by done.
    unfold try_except_ValueError, run_task; cbn [String.eqb Ascii.eqb Bool.eqb].
    unfold activity_branch.
    rewrite (bind_inr _ _ _ _ _ (load_model_ok E _ _ _ _ Hf Hp)).
    rewrite (bind_inr _ _ _ _ _ Hcalc).
    unfold model_predict. run_step. rewrite Hy. cbn [eq_1_truth].
    destruct (num_eq_1 code); run_step; by rewrite <- app_assoc. }
  rewrite Hr; cbn [fst snd]. rewrite displayed_after, Hd.
  pose proof (num_eq_1_spec code Hcode) as Hspec.
  split; [done|]. split; [|split].
  - intros Hone. apply Hspec in Hone. by rewrite Hone.
  - intros Hnot. destruct (num_eq_1 code); [|done].
    exfalso. by apply Hnot, Hspec.
  - by intros z ->.
Qed.

Lemma activity_label_witness :
  displayed (on_run (Demo.env 7 float_one) "CCO" "Predict the Compound's Activity"
               Demo.float_classifier).2
  = displayed Demo.float_classifier ++ [StText "Active"].
Proof.
  refine (proj1 (proj2
    (activity_label (Demo.env 7 float_one) "CCO" "regressor" tt
       (Demo.regressor float_one) (NFloat float_one) Demo.float_classifier
       _ _ _ _ _ _ _)) _).
  - apply reachable_fresh. reflexivity.
  - discriminate.
  - reflexivity.
  - reflexivity.
  - reflexivity.
  - reflexivity.
  - reflexivity.
  - split; [lia|reflexivity].
Defined.

(** The codes 1, 0 and -5 on a fresh server. *)
Example activity_label_examples :
  map (λ code,
         displayed
           (on_run (Demo.env code Demo.raw_pIC50) "CCO"
              "Predict the Compound's Activity" Demo.fresh).2)
      [1; 0; -5]
  = [[StText "Active"]; [StText "Inactive"]; [StText "Inactive"]].
Proof. reflexivity. Qed.

(** ** The external tool *)

Lemma pIC50_branch_after_tool (E : Env) (smiles : string) (w : World) :
  pIC50_branch E smiles w = pIC50_rest E (after_tool E smiles w).
Proof.
  unfold pIC50_branch, generate_csv_file, subprocess_call, after_tool, tool_run,
    smi_text.
  run_step. change (open_w E (fs w) "molecule.smi") with (@None exn).
  run_step. by rewrite <- app_assoc.
Qed.

Lemma on_run_pIC50 (E : Env) (smiles : string) (w : World) :
  smiles ≠ EmptyString →
  on_run E smiles "Predict the Compound's pIC50" w
  = match pIC50_rest E (after_tool E smiles w) with
    | (inl e, w') => at_boundary e w'
    | (inr tt, w') => (inr tt, w')
    end.
Proof.
  intros Hne. rewrite on_run_nonempty by done.
  unfold try_except_ValueError, run_task; cbn [String.eqb Ascii.eqb Bool.eqb].
  rewrite pIC50_branch_after_tool.
  destruct (pIC50_rest E (after_tool E smiles w)) as [[[]|[]] w']; reflexivity.
Qed.

(** C3, the sentence as worded fails: the tool exits with 1 on a string
    it cannot read, and the branch goes on to predict from the output
    file of an earlier run and shows a pIC50. *)
Lemma external_tool_failure_claim_fails :
  ¬ external_tool_failure_claim (Demo.env 1 Demo.raw_pIC50) "not a molecule" Demo.used.
Proof.
  intros H. destruct H as [_ Hall]; [by vm_compute|].
  vm_compute in Hall.
  repeat match goal with
         | H : Forall _ (_ :: _) |- _ => inversion H; clear H; subst
         end.
  discriminate.
Qed.

(** C3, as the code has it: the exit status of the tool is dropped.  A
    run of the script is the same whatever status the tool exits with,
    and with any status the pIC50 branch goes on to read the output file
    and to predict from it. *)
Theorem exit_status_ignored (E : Env) (status : Z) (smiles selected_option : string)
    (st_button : bool) (w : World) :
  main (with_exit_status status E) smiles selected_option st_button w
  = main E smiles selected_option st_button w
  ∧ run_task (with_exit_status status E) smiles "Predict the Compound's pIC50" w
    = pIC50_rest E (after_tool E smiles w).
Proof.
  split; [reflexivity|].
  unfold run_task; cbn [String.eqb Ascii.eqb Bool.eqb].
  by rewrite pIC50_branch_after_tool.
Qed.

Lemma drop_Name_missing (df : DataFrame) :
  "Name" ∉ column_names df → drop ["Name"] df = inl (KeyError "Name").
Proof.
  intros Hnot. unfold drop. rewrite filter_cons_True by done.
  by rewrite filter_nil.
Qed.

(** C7, the sentence as worded fails: an output file that has its "Name"
    column but holds text where a number should be is read without
    complaint, and the branch goes on to the regressor and shows a
    pIC50. *)
Lemma feature_parse_claim_fails_for_malformed_table :
  ¬ feature_parse_claim (Demo.env 1 Demo.raw_pIC50) "not a molecule" Demo.garbled_output.
Proof.
  intros H. destruct H as [[e He] _].
  - right. exists "garbled", Demo.garbled. by repeat split.
  - vm_compute in He. discriminate.
Qed.

(** C7, as the code has it: when the output file of the tool is missing,
    is rejected by the CSV reader, or is read to a table without a "Name"
    column, the pIC50 branch ends in that failure right after reading: no
    model file is opened and no prediction is made.  At the boundary a
    [ValueError] is shown as a message and any other failure leaves the
    script. *)
Theorem feature_parse_failure_stops_branch (E : Env) (smiles : string) (e : exn) (w : World) :
  smiles ≠ EmptyString →
  FeatureParseFailure E (fs (after_tool E smiles w)) e →
  run_task E smiles "Predict the Compound's pIC50" w
    = (inl e, after (after_tool E smiles w) [ReadCsv "descriptors_output.csv"])
  ∧ on_run E smiles "Predict the Compound's pIC50" w
    = at_boundary e (after (after_tool E smiles w) [ReadCsv "descriptors_output.csv"])
  ∧ trace (run_task E smiles "Predict the Compound's pIC50" w).2
    = trace w ++ [FileWrite "molecule.smi" (smi_text smiles);
                  Subprocess ["bash"; "./padel.sh"];
                  ReadCsv "descriptors_output.csv"].
Proof.
  intros Hne Hfail.
  assert (Hrest : pIC50_rest E (after_tool E smiles w)
            = (inl e, after (after_tool E smiles w) [ReadCsv "descriptors_output.csv"])).
  { unfold pIC50_rest, read_csv. run_step.
    destruct Hfail as [Hf|text e Hf Hp|text data Hf Hp Hn]; rewrite Hf; run_step.
    - done.
    - by rewrite Hp.
    - rewrite Hp. by rewrite (drop_Name_missing _ Hn). }
  split; [|split].
  - unfold run_task; cbn [String.eqb Ascii.eqb Bool.eqb].
    by rewrite pIC50_branch_after_tool.
  - rewrite on_run_pIC50 by done. by rewrite Hrest.
  - unfold run_task; cbn [String.eqb Ascii.eqb Bool.eqb].
    rewrite pIC50_branch_after_tool, Hrest. cbn. by rewrite <- app_assoc.
Qed.

Lemma feature_parse_failure_stops_branch_witness :
  run_task (Demo.env 1 Demo.raw_pIC50) "not a molecule" "Predict the Compound's pIC50"
    Demo.damaged
  = (inl (KeyError "Name"),
     after (after_tool (Demo.env 1 Demo.raw_pIC50) "not a molecule" Demo.damaged)
       [ReadCsv "descriptors_output.csv"]).
Proof.
  refine (proj1
    (feature_parse_failure_stops_branch (Demo.env 1 Demo.raw_pIC50)
       "not a molecule" (KeyError "Name") Demo.damaged _ _)).
  - discriminate.
  - apply (name_column_missing _ _ "nameless" Demo.nameless).
    + reflexivity.
    + reflexivity.
    + cbn. by intros ?%list_elem_of_singleton.
Defined.

(** ** Failures at the boundary *)

Create HintDb quiet.

Section Quiet.
Context (E : Env).

Lemma silent_ret {A} (a : A) : silent (ret a).
Proof. by intros w. Qed.

Lemma silent_raise {A} (e : exn) : silent (@raise A e).
Proof. by intros w. Qed.

Lemma silent_lift {A} (r : result A) : silent (lift r).
Proof. by intros w. Qed.

Lemma silent_get_fs : silent get_fs.
Proof. by intros w. Qed.

Lemma silent_put_fs f : silent (put_fs f).
Proof. by intros w. Qed.

Lemma silent_emit e : is_display e = false → silent (emit e).
Proof.
  intros He w. unfold displayed, emit; cbn [snd trace].
  rewrite List.filter_app; cbn. rewrite He. apply app_nil_r.
Qed.

Lemma silent_bind {A B} (m : M A) (k : A → M B) :
  silent m → (∀ a, silent (k a)) → silent (bind m k).
Proof.
  intros Hm Hk w. unfold bind. specialize (Hm w).
  destruct (m w) as [[e|a] w1]; [done|].
  cbn [snd] in Hm. by rewrite Hk.
Qed.

Lemma silent_calculate s : silent (calculate_lipinski_descriptors E s).
Proof.
  intros w.
  destruct (calculate_cases E s w)
    as [(df & Hl & ->)|[(mol & Hl & Hs & ->)|(Hl & Hs & ->)]]; cbn [snd].
  - done.
  - unfold displayed; cbn [trace]. rewrite List.filter_app. apply app_nil_r.
  - rewrite displayed_after. apply app_nil_r.
Qed.

Hint Resolve silent_ret silent_raise silent_lift silent_get_fs silent_put_fs
  silent_calculate : quiet.

Ltac silent_tac :=
  repeat first
    [ solve [auto with quiet]
    | apply silent_emit; reflexivity
    | apply silent_bind; [|intros ?]
    | case_match ].

Lemma silent_load_model path : silent (load_model E path).
Proof. unfold load_model. silent_tac. Qed.

Lemma silent_read_csv path : silent (read_csv E path).
Proof. unfold read_csv. silent_tac. Qed.

Lemma silent_generate_csv_file s1 s2 path : silent (generate_csv_file E s1 s2 path).
Proof. unfold generate_csv_file. silent_tac. Qed.

Lemma silent_subprocess_call argv : silent (subprocess_call E argv).
Proof. unfold subprocess_call. silent_tac. Qed.

Lemma silent_model_predict m X : silent (model_predict m X).
Proof. unfold model_predict. silent_tac. Qed.

Lemma silent_query_search s : silent (query_search E s).
Proof. unfold query_search. silent_tac. Qed.

Lemma never_fails_emit e : never_fails (emit e).
Proof. intros w. by exists tt. Qed.

Lemma never_fails_bind {A B} (m : M A) (k : A → M B) :
  never_fails m → (∀ a, never_fails (k a)) → never_fails (bind m k).
Proof.
  intros Hm Hk w. unfold bind. destruct (Hm w) as [a Ha].
  destruct (m w) as [[e|a'] w1]; [done|]. apply Hk.
Qed.

Lemma fails_silently_never {A} (m : M A) : never_fails m → fails_silently m.
Proof. intros Hm w e He. destruct (Hm w) as [a Ha]. congruence. Qed.

Lemma fails_silently_bind {A B} (m : M A) (k : A → M B) :
  silent m → (∀ a, fails_silently (k a)) → fails_silently (bind m k).
Proof.
  intros Hm Hk w e. unfold bind. specialize (Hm w).
  destruct (m w) as [[e'|a] w1]; [done|].
  cbn [snd] in Hm. intros He. rewrite <- Hm. by eapply Hk.
Qed.

Hint Resolve silent_load_model silent_read_csv silent_generate_csv_file
  silent_subprocess_call silent_model_predict silent_query_search
  never_fails_emit : quiet.

Ltac quiet_tac :=
  repeat first
    [ apply fails_silently_bind; [solve [auto with quiet]|intros ?]
    | apply fails_silently_never;
      repeat first [ apply never_fails_emit
                   | apply never_fails_bind; [|intros ?]
                   | case_match ] ].

Lemma run_task_fails_silently s opt : fails_silently (run_task E s opt).
Proof.
  unfold run_task. repeat case_match.
  - unfold lipinski_branch. quiet_tac.
  - unfold activity_branch. quiet_tac.
  - unfold pIC50_branch, pIC50_rest. quiet_tac.
  - unfold proteins_branch. quiet_tac.
  - intros w e. discriminate.
Qed.
End Quiet.

(** C6, the sentence as worded fails: with the classifier file missing,
    the activity branch raises [FileNotFoundError], which the boundary
    does not catch: the run ends in it and shows no message. *)
Lemma failures_caught_claim_fails :
  ¬ failures_caught_claim (Demo.env 1 Demo.raw_pIC50)
      "CCO" "Predict the Compound's Activity" Demo.no_classifier.
Proof.
  intros H.
  destruct (H (FileNotFoundError "lipinsky_model.pkl") Demo.no_classifier eq_refl)
    as [msg Hmsg].
  vm_compute in Hmsg. discriminate.
Qed.

(** C6, as the code has it: a [ValueError] raised in a task branch is
    caught at the boundary and shown as one error message carrying its
    text; a failure of any other class leaves the script uncaught and
    nothing is shown; and a branch that fails has shown nothing itself,
    so a failed run shows no label, value or table. *)
Theorem failures_at_boundary (E : Env) (smiles selected_option : string) (e : exn)
    (w w' : World) :
  smiles ≠ EmptyString →
  run_task E smiles selected_option w = (inl e, w') →
  on_run E smiles selected_option w = at_boundary e w'
  ∧ displayed w' = displayed w
  ∧ displayed (on_run E smiles selected_option w).2
    = displayed w ++ match e with ValueError msg => [StError msg] | _ => [] end.
Proof.
  intros Hne Hrun.
  assert (Hon : on_run E smiles selected_option w = at_boundary e w').
  { rewrite on_run_nonempty by done. unfold try_except_ValueError.
    rewrite Hrun. by destruct e. }
  assert (Hd : displayed w' = displayed w).
  { pose proof (run_task_fails_silently E smiles selected_option w e) as Hq.
    rewrite Hrun in Hq. by apply Hq. }
  repeat split; [done..|].
  rewrite Hon. destruct e; cbn [at_boundary snd];
    rewrite ?displayed_after, Hd; cbn; by rewrite ?app_nil_r.
Qed.

Lemma failures_at_boundary_witness :
  on_run (Demo.env 1 Demo.raw_pIC50) "not a molecule" "Predict the Compound's Activity"
    Demo.fresh
  = at_boundary (ValueError "Invalid SMILES string")
      (after Demo.fresh [PickleLoad "lipinsky_model.pkl"; MolParse "not a molecule"]).
Proof.
  refine (proj1
    (failures_at_boundary (Demo.env 1 Demo.raw_pIC50) "not a molecule"
       "Predict the Compound's Activity" (ValueError "Invalid SMILES string")
       Demo.fresh _ _ _)).
  - discriminate.
  - reflexivity.
Defined.

(** ** The intermediate file *)

Lemma append_nil_l (b : string) : EmptyString +:+ b = b.
Proof. reflexivity. Qed.

Lemma append_cons (x : ascii) (a b : string) :
  String x a +:+ b = String x (a +:+ b).
Proof. reflexivity. Qed.

Ltac push_append := rewrite ?append_cons, ?append_nil_l.

Lemma append_assoc (a b c : string) : (a +:+ b) +:+ c = a +:+ (b +:+ c).
Proof. induction a as [|x a IH]; push_append; [done|]. by rewrite IH. Qed.

Lemma has_special_append (a b : string) :
  has_special (a +:+ b) = has_special a || has_special b.
Proof.
  induction a as [|x a IH]; push_append; cbn; [done|]. by rewrite IH, orb_assoc.
Qed.

Lemma free_of_append (sep : ascii) (a b : string) :
  free_of sep (a +:+ b) = free_of sep a && free_of sep b.
Proof.
  induction a as [|x a IH]; push_append; cbn; [done|]. by rewrite IH, andb_assoc.
Qed.

Lemma plain_spec (s : string) :
  plain s = true →
  has_special s = false ∧ free_of TAB s = true
  ∧ free_of LF s = true ∧ free_of CR s = true.
Proof.
  induction s as [|c s IH]; cbn; [done|].
  intros [[Hc Ht]%andb_prop Hs]%andb_prop. destruct (IH Hs) as (-> & -> & -> & ->).
  apply negb_true_iff in Hc, Ht. rewrite Hc, Ht.
  unfold csv_special in Hc.
  apply orb_false_elim in Hc as [[[_ _]%orb_false_elim Hcr]%orb_false_elim Hlf].
  by rewrite Hcr, Hlf.
Qed.

Lemma split_on_free (sep : ascii) (s : string) :
  free_of sep s = true → split_on sep s = [s].
Proof.
  induction s as [|c s IH]; cbn; [done|].
  intros [Hc Hs]%andb_prop. apply negb_true_iff in Hc.
  by rewrite Hc, (IH Hs).
Qed.

Lemma split_on_app (sep : ascii) (s t : string) :
  free_of sep s = true →
  split_on sep (s +:+ String sep t) = s :: split_on sep t.
Proof.
  induction s as [|c s IH]; push_append; cbn.
  - intros _. by rewrite Ascii.eqb_refl.
  - intros [Hc Hs]%andb_prop. apply negb_true_iff in Hc.
    by rewrite Hc, (IH Hs).
Qed.

Lemma chomp_cr_app (s : string) : chomp_cr (s +:+ String CR EmptyString) = s.
Proof.
  induction s as [|c s IH]; [done|].
  push_append. cbn [chomp_cr]. rewrite IH.
  destruct s; [done|]. by push_append.
Qed.

Lemma csv_writerows_plain (field : string) :
  field ≠ EmptyString → has_special field = false →
  csv_writerows [[field]] = field +:+ CRLF.
Proof.
  intros Hne Hs. unfold csv_writerows, csv_writerow, csv_field.
  cbn [map String.concat]. rewrite Hs. by destruct field.
Qed.

(** The line written, as the line ending after everything before it. *)
Lemma line_ending (string1 string2 : string) :
  string1 +:+ String TAB EmptyString +:+ string2 +:+ CRLF
  = ((string1 +:+ String TAB string2) +:+ String CR EmptyString)
      +:+ String LF EmptyString.
Proof.
  unfold CRLF. rewrite !append_assoc. by push_append.
Qed.

Lemma tsv_rows_line (string1 string2 : string) :
  plain string1 = true → plain string2 = true →
  tsv_rows (string1 +:+ String TAB EmptyString +:+ string2 +:+ CRLF)
  = [[string1; string2]].
Proof.
  intros (_ & Ht1 & Hl1 & _)%plain_spec (_ & Ht2 & Hl2 & _)%plain_spec.
  unfold tsv_rows, text_lines. rewrite line_ending, split_on_app.
  - cbn [split_on drop_last_empty map].
    destruct ((string1 +:+ String TAB string2) +:+ String CR EmptyString) eqn:Heq.
    { by destruct string1. }
    rewrite <- Heq. cbn [drop_last_empty map].
    rewrite chomp_cr_app, split_on_app by done.
    by rewrite split_on_free.
  - rewrite !free_of_append; cbn. by rewrite Hl1, Hl2.
Qed.

Lemma smi_text_plain (string1 string2 : string) :
  plain string1 = true → plain string2 = true →
  csv_writerows [[string1 +:+ String TAB EmptyString +:+ string2]]
  = string1 +:+ String TAB EmptyString +:+ string2 +:+ CRLF.
Proof.
  intros (Hs1 & _)%plain_spec (Hs2 & _)%plain_spec.
  rewrite csv_writerows_plain.
  - by rewrite !append_assoc.
  - by destruct string1.
  - rewrite has_special_append, Hs1. push_append. cbn. by rewrite Hs2.
Qed.

(** C8, the sentence as worded fails: a comma in the input makes the CSV
    writer put the whole line in quotes, so that read as tab-separated
    text its first field is not the input. *)
Lemma intermediate_file_claim_fails_on_comma :
  ¬ intermediate_file_claim (Demo.env 1 Demo.raw_pIC50) "C,C" "Compound_name".
Proof.
  intros H.
  destruct (H "molecule.smi" Demo.fresh eq_refl) as (text & Hf & Hrows).
  vm_compute in Hf. injection Hf as <-. vm_compute in Hrows. discriminate.
Qed.

Lemma trace_grows (E : Env) (t : list event) :
  preserves (λ w, ∃ es, trace w = t ++ es) (pIC50_rest E).
Proof.
  apply pIC50_rest_preserves.
  intros e w [es Hes]. exists (es ++ [e]). cbn. by rewrite Hes, app_assoc.
Qed.

(** C8, as the code has it: for a molecular string and a name without
    comma, quote, tab or line break, the file written is the one line
    "string, tab, name" ended by CR LF; read as tab-separated text it is
    one row of these two fields, with no header.  In the pIC50 branch
    this file, with the name [Compound_name], is written first and is in
    place when the tool is started. *)
Theorem intermediate_file_is_tsv (E : Env) (string1 string2 filename : string) (w : World) :
  plain string1 = true →
  plain string2 = true →
  let text := string1 +:+ String TAB EmptyString +:+ string2 +:+ CRLF in
  let smi := string1 +:+ String TAB EmptyString +:+ "Compound_name" +:+ CRLF in
  generate_csv_file E string1 string2 filename w
    = match open_w E (fs w) filename with
      | Some e => (inl e, w)
      | None =>
          (inr tt,
           mkWorld (<[filename := text]> (fs w)) (cache w)
             (trace w ++ [FileWrite filename text]))
      end
  ∧ tsv_rows text = [[string1; string2]]
  ∧ tool_run E string1 w
    = bash E ["bash"; "./padel.sh"] (<["molecule.smi" := smi]> (fs w))
  ∧ ∃ es, trace (run_task E string1 "Predict the Compound's pIC50" w).2
          = trace w ++ [FileWrite "molecule.smi" smi;
                        Subprocess ["bash"; "./padel.sh"]] ++ es.
Proof.
  intros H1 H2 text smi.
  assert (Hsmi : smi_text string1 = smi) by by apply smi_text_plain.
  split; [|split; [|split]].
  - unfold generate_csv_file. rewrite smi_text_plain by done. run_step.
    by destruct (open_w E (fs w) filename).
  - by apply tsv_rows_line.
  - unfold tool_run. by rewrite Hsmi.
  - unfold run_task; cbn [String.eqb Ascii.eqb Bool.eqb].
    rewrite pIC50_branch_after_tool.
    destruct (trace_grows E (trace (after_tool E string1 w)) (after_tool E string1 w))
      as [es Hes]; [exists []; by rewrite app_nil_r|].
    exists es. rewrite Hes. unfold after_tool; cbn [trace].
    by rewrite Hsmi, <- app_assoc.
Qed.

Lemma intermediate_file_is_tsv_witness :
  tsv_rows ("CCO" +:+ String TAB EmptyString +:+ "Compound_name" +:+ CRLF)
  = [["CCO"; "Compound_name"]].
Proof.
  refine (proj1 (proj2
    (intermediate_file_is_tsv (Demo.env 1 Demo.raw_pIC50) "CCO" "Compound_name"
       "molecule.smi" Demo.fresh _ _))).
  - reflexivity.
  - reflexivity.
Defined.

(** ** Rounding to two decimals *)

Lemma round_half_even_spec (n d : Z) :
  0 ≤ n → 0 < d →
  0 ≤ round_half_even n d
  ∧ Z.abs (2 * n - 2 * round_half_even n d * d) ≤ d
  ∧ (Z.abs (2 * n - 2 * round_half_even n d * d) = d
     → Z.even (round_half_even n d) = true).
Proof.
  intros Hn Hd. unfold round_half_even.
  pose proof (Z.div_mod n d ltac:(lia)) as Hdm.
  pose proof (Z.mod_pos_bound n d Hd) as Hr.
  assert (Hq : 0 ≤ n / d) by (apply Z.div_pos; lia).
  set (q := n / d) in *; set (r := n mod d) in *.
  destruct (Z.ltb_spec (2 * r) d) as [Hlt|Hge];
    [|destruct (Z.ltb_spec d (2 * r)) as [Hgt|Hle]];
    [| |destruct (Z.even q) eqn:Hev].
  - repeat split; [lia| |]; replace (2 * n - 2 * q * d) with (2 * r) by lia; lia.
  - repeat split; [lia| |];
      replace (2 * n - 2 * (q + 1) * d) with (2 * r - 2 * d) by lia; lia.
  - repeat split; [lia| |done].
    replace (2 * n - 2 * q * d) with (2 * r) by lia. lia.
  - repeat split; [lia| |].
    + replace (2 * n - 2 * (q + 1) * d) with (2 * r - 2 * d) by lia. lia.
    + intros _. rewrite Z.even_add, Hev. reflexivity.
Qed.

Lemma hundredths_nearest (m : positive) (e : Z) :
  nearest_hundredth m e (hundredths m e).
Proof.
  unfold nearest_hundredth, hundredths.
  destruct (Z.leb_spec 0 e) as [He|He].
  - rewrite (Z.max_r 0 e), (Z.max_l 0 (- e)) by lia. cbn [Z.pow].
    assert (0 < 2 ^ e) by (apply Z.pow_pos_nonneg; lia).
    repeat split; [nia| |].
    + replace (2 * (100 * Z.pos m * 2 ^ e) - 2 * (100 * Z.pos m * 2 ^ e) * 1)
        with 0 by lia. cbn. lia.
    + replace (2 * (100 * Z.pos m * 2 ^ e) - 2 * (100 * Z.pos m * 2 ^ e) * 1)
        with 0 by lia. cbn. lia.
  - rewrite (Z.max_l 0 e), (Z.max_r 0 (- e)) by lia.
    replace (100 * Z.pos m * 2 ^ 0) with (100 * Z.pos m) by (cbn; lia).
    apply round_half_even_spec; [lia|].
    apply Z.pow_pos_nonneg; lia.
Qed.

Lemma hundredths_nonneg (m : positive) (e : Z) : 0 ≤ hundredths m e.
Proof. apply hundredths_nearest. Qed.

(** ** Writing and reading back two decimals *)

Lemma uint_digits_free (c : ascii) (d : Decimal.uint) :
  digit_of_char c = None → free_of c (NilEmpty.string_of_uint d) = true.
Proof.
  intros Hc. induction d; cbn [NilEmpty.string_of_uint free_of]; [done|..];
    rewrite IHd, andb_true_r; apply negb_true_iff, Ascii.eqb_neq;
    intros <-; discriminate.
Qed.

Lemma dec_free (c : ascii) (n : Z) :
  digit_of_char c = None → free_of c (dec n) = true.
Proof.
  intros Hc. unfold dec, NilZero.string_of_uint.
  destruct (N.to_uint (Z.to_N n)) eqn:Hd; rewrite <- ?Hd;
    try by apply uint_digits_free.
  cbn [free_of]. rewrite andb_true_r. apply negb_true_iff, Ascii.eqb_neq.
  intros <-; discriminate.
Qed.

Lemma to_uint_nonnil (n : N) : N.to_uint n ≠ Decimal.Nil.
Proof.
  destruct n as [|p]; [discriminate|]. apply Unsigned.to_uint_nonnil.
Qed.

Lemma dec_nonempty (n : Z) : dec n ≠ EmptyString.
Proof.
  unfold dec. intros H.
  pose proof (NilZero.usu _ (to_uint_nonnil (Z.to_N n))) as Hu.
  rewrite H in Hu. discriminate.
Qed.

Lemma dec_read (n : Z) :
  0 ≤ n →
  ∃ d, NilZero.uint_of_string (dec n) = Some d ∧ Z.of_N (N.of_uint d) = n.
Proof.
  intros Hn. exists (N.to_uint (Z.to_N n)). split.
  - apply NilZero.usu, to_uint_nonnil.
  - rewrite DecimalN.Unsigned.of_to. lia.
Qed.

Lemma split_point_app (a b : string) :
  free_of "."%char a = true →
  split_point (a +:+ String "."%char b) = Some (a, b).
Proof.
  induction a as [|c a IH]; push_append; cbn [split_point free_of].
  - done.
  - intros [Hc Ha]%andb_prop. apply negb_true_iff in Hc.
    by rewrite Hc, (IH Ha).
Qed.

Lemma digit_char_read (d : Z) :
  0 ≤ d < 10 → digit_of_char (digit_char d) = Some d.
Proof.
  intros Hd.
  assert (d = 0 ∨ d = 1 ∨ d = 2 ∨ d = 3 ∨ d = 4 ∨ d = 5 ∨ d = 6 ∨ d = 7
          ∨ d = 8 ∨ d = 9) as Hcases by lia.
  repeat destruct Hcases as [->|Hcases]; try reflexivity.
  by subst.
Qed.

Lemma read_unsigned2_digits (h : Z) :
  0 ≤ h →
  read_unsigned2
    (dec (h / 100)
     +:+ String "."%char
           (String (digit_char (h mod 100 / 10))
              (String (digit_char (h mod 10)) EmptyString)))
  = Some h.
Proof.
  intros Hh. unfold read_unsigned2.
  rewrite split_point_app by by apply dec_free.
  destruct (dec_read (h / 100)) as (d & -> & ->); [apply Z.div_pos; lia|].
  rewrite !digit_char_read.
  - f_equal. Z.div_mod_to_equations. lia.
  - Z.div_mod_to_equations. lia.
  - Z.div_mod_to_equations. lia.
Qed.

Lemma read_fixed2_cons (c : ascii) (s : string) :
  read_fixed2 (String c s)
  = if Ascii.eqb c "-"%char then pair true <$> read_unsigned2 s
    else pair false <$> read_unsigned2 (String c s).
Proof. reflexivity. Qed.

Lemma read_fixed2_fixed2 (neg : bool) (h : Z) :
  0 ≤ h → read_fixed2 (fixed2 neg h) = Some (neg, h).
Proof.
  intros Hh. unfold fixed2. destruct neg.
  - change ("-" +:+ ?s) with (String "-"%char s).
    rewrite read_fixed2_cons, Ascii.eqb_refl.
    by rewrite read_unsigned2_digits.
  - push_append.
    destruct (dec (h / 100)) as [|c s] eqn:Hdec; [by apply dec_nonempty in Hdec|].
    pose proof (dec_free "-"%char (h / 100) eq_refl) as Hfree.
    rewrite Hdec in Hfree. cbn [free_of] in Hfree.
    apply andb_prop in Hfree as [Hc _]. apply negb_true_iff in Hc.
    push_append. rewrite read_fixed2_cons, Hc, <- append_cons, <- Hdec.
    by rewrite read_unsigned2_digits.
Qed.

Lemma format_2f_rounded (y : spec_float) :
  finite y = true →
  ∃ neg h, read_fixed2 (format_2f (NFloat y)) = Some (neg, h) ∧ rounded y neg h.
Proof.
  destruct y as [s| | |s m e]; try discriminate; intros _; cbn [format_2f rounded].
  - exists s, 0. by rewrite read_fixed2_fixed2.
  - exists s, (hundredths m e).
    rewrite read_fixed2_fixed2 by apply hundredths_nonneg.
    split; [done|]. split; [done|]. apply hundredths_nearest.
Qed.

(** The prediction 6.12345 is shown as 6.12. *)
Example format_2f_example : format_2f (NFloat Demo.raw_pIC50) = "6.12".
Proof. reflexivity. Qed.

(** C4, the sentence as worded fails: a regressor that answers NaN has
    "nan" shown, which is not a number with two decimals. *)
Lemma two_decimals_claim_fails_for_nan :
  ¬ two_decimals_claim (Demo.env 1 S754_nan) "CCO" Demo.fresh.
Proof.
  intros H. destruct (H "nan") as (neg & h & Hread).
  - vm_compute. do 5 right. left. reflexivity.
  - vm_compute in Hread. discriminate.
Qed.

(** C4, as the code has it: the regressor is applied to the features as
    read (the table minus its "Name" column), and only the first value
    it returns is then formatted; for a finite value the text shown
    after "The pIC50 of your compound is " is a sign, digits, a point and
    exactly two digits, and read back it is the hundredth nearest to the
    value (the even one of two equally near). *)
Theorem pIC50_rounded_after_prediction (E : Env) (smiles text bytes : string)
    (data X : DataFrame) (model : Model) (y : spec_float) (others : list num)
    (w : World) :
  smiles ≠ EmptyString →
  fs (after_tool E smiles w) !! "descriptors_output.csv" = Some text →
  parse_csv E text = inr data →
  drop ["Name"] data = inr X →
  fs (after_tool E smiles w) !! "model.pkl" = Some bytes →
  pickle_load E bytes = inr model →
  predict model X = inr (NFloat y :: others) →
  finite y = true →
  on_run E smiles "Predict the Compound's pIC50" w
    = (inr tt,
       after (after_tool E smiles w)
         [ReadCsv "descriptors_output.csv"; PickleLoad "model.pkl"; Predict X;
          StText ("The pIC50 of your compound is " +:+ format_2f (NFloat y))])
  ∧ ∃ neg h, read_fixed2 (format_2f (NFloat y)) = Some (neg, h) ∧ rounded y neg h.
Proof.
  intros Hne Hf Hp Hd Hm Hl Hy Hfin. split; [|by apply format_2f_rounded].
  rewrite on_run_pIC50 by done.
  unfold pIC50_rest, read_csv, load_model, model_predict. run_step.
  rewrite Hf. run_step. rewrite Hp, Hd. cbn [fs]. rewrite Hm. run_step.
  rewrite Hl, Hy. cbn [first_item]. by rewrite <- !app_assoc.
Qed.

Lemma pIC50_rounded_after_prediction_witness :
  on_run (Demo.env 1 Demo.raw_pIC50) "CCO" "Predict the Compound's pIC50" Demo.fresh
  = (inr tt,
     after (after_tool (Demo.env 1 Demo.raw_pIC50) "CCO" Demo.fresh)
       [ReadCsv "descriptors_output.csv"; PickleLoad "model.pkl";
        Predict (mkDataFrame [0]
                   [("nAcid", [CNum (NInt 0)]);
                    ("ALogP", [CNum (NFloat Demo.ethanol_logp)])]);
        StText ("The pIC50 of your compound is " +:+ "6.12")]).
Proof.
  refine (proj1
    (pIC50_rounded_after_prediction (Demo.env 1 Demo.raw_pIC50) "CCO" "features"
       "regressor" Demo.features _ (Demo.regressor Demo.raw_pIC50) Demo.raw_pIC50 []
       Demo.fresh _ _ _ _ _ _ _ _)).
  - discriminate.
  - reflexivity.
  - reflexivity.
  - reflexivity.
  - reflexivity.
  - reflexivity.
  - reflexivity.
  - reflexivity.
Defined.

(** * Further properties of the script *)

(** ** The descriptors branch *)

Lemma set_columns_lipinski (E : Env) (mol : Mol E) :
  set_columns
    [ "Molecular Weight";
      "Octanol-Water Partition Coefficient (LogP)";
      "Number of Hydrogen Bond Donors";
      "Number of Hydrogen Bond Acceptors" ] (lipinski_frame E mol)
  = inr (lipinski_table E mol).
Proof. reflexivity. Qed.

(** X1: for a non-empty string that RDKit accepts, the descriptors branch
    succeeds and shows the style block that hides the row index and then
    one table: the one-row frame of the four descriptors under the long
    column names, in the order weight, LogP, donors, acceptors. *)
Theorem lipinski_branch_shows_table (E : Env) (smiles : string) (mol : Mol E) (w : World) :
  reachable E w →
  smiles ≠ EmptyString →
  MolFromSmiles E smiles = Some mol →
  let r := on_run E smiles "Compute Lipinski's Descriptors" w in
  r.1 = inr tt
  ∧ displayed r.2
    = displayed w ++ [StHtml hide_table_row_index; StTable (lipinski_table E mol)]
  ∧ fs r.2 = fs w.
Proof.
  intros Hw Hne Hs r. apply reachable_coherent in Hw.
  destruct (calculate_valid E smiles mol w Hw Hs) as (w' & Hcalc & Hfs & Hd).
  assert (Hr : r = (inr tt, after w' [StHtml hide_table_row_index;
                                      StTable (lipinski_table E mol)])).
  { subst r. rewrite on_run_nonempty by done.
    unfold try_except_ValueError, run_task; cbn [String.eqb Ascii.eqb Bool.eqb].
    unfold lipinski_branch. rewrite (bind_inr _ _ _ _ _ Hcalc).
    rewrite set_columns_lipinski. run_step.
    by rewrite <- app_assoc. }
  rewrite Hr; cbn [fst snd]. rewrite displayed_after, Hd. by repeat split.
Qed.

Lemma lipinski_branch_shows_table_witness :
  displayed (on_run (Demo.env 1 Demo.raw_pIC50) "CCO" "Compute Lipinski's Descriptors"
               Demo.fresh).2
  = displayed Demo.fresh
    ++ [StHtml hide_table_row_index;
        StTable (lipinski_table (Demo.env 1 Demo.raw_pIC50) tt)].
Proof.
  refine (proj1 (proj2
    (lipinski_branch_shows_table (Demo.env 1 Demo.raw_pIC50) "CCO" tt Demo.fresh _ _ _))).
  - apply reachable_fresh. reflexivity.
  - discriminate.
  - reflexivity.
Defined.

(** ** The activity branch *)

Lemma calculate_valid_trace (E : Env) (smiles : string) (mol : Mol E) (w : World) :
  coherent E w → MolFromSmiles E smiles = Some mol →
  ∃ w' es, calculate_lipinski_descriptors E smiles w = (inr (lipinski_frame E mol), w')
           ∧ trace w' = trace w ++ es
           ∧ Forall (λ e, inference e = false) es.
Proof.
  intros Hw Hs.
  destruct (calculate_cases E smiles w)
    as [(df & Hl & Heq)|[(mol' & Hl & Hs' & Heq)|(Hl & Hs' & Heq)]].
  - exists w, []. apply Hw in Hl. rewrite Hs in Hl. injection Hl as <-.
    by rewrite app_nil_r.
  - rewrite Hs in Hs'. injection Hs' as <-.
    eexists _, [MolParse smiles; Describe smiles]. rewrite Heq.
    repeat split. by repeat constructor.
  - congruence.
Qed.

(** X2: in every state a session can reach, once the classifier is
    loaded the activity branch calls [predict] exactly once, and on the
    frame as the engine built it, with the columns MW, LogP, NumHDonors,
    NumHAcceptors: the long names the descriptors branch gives to its copy
    never reach the classifier.  This holds whatever the classifier
    answers. *)
Theorem classifier_sees_engine_frame (E : Env) (smiles bytes : string) (mol : Mol E)
    (model : Model) (w : World) :
  reachable E w →
  smiles ≠ EmptyString →
  fs w !! "lipinsky_model.pkl" = Some bytes →
  pickle_load E bytes = inr model →
  MolFromSmiles E smiles = Some mol →
  ∃ before behind,
    trace (on_run E smiles "Predict the Compound's Activity" w).2
    = trace w ++ before ++ [Predict (lipinski_frame E mol)] ++ behind
    ∧ Forall (λ e, inference e = false) before
    ∧ Forall (λ e, inference e = false) behind
    ∧ column_names (lipinski_frame E mol) = ["MW"; "LogP"; "NumHDonors"; "NumHAcceptors"].
Proof.
  intros Hw Hne Hf Hp Hs. apply reachable_coherent in Hw.
  destruct (calculate_valid_trace E smiles mol (after w [PickleLoad "lipinsky_model.pkl"]))
    as (w' & es & Hcalc & Htr & Hes); [done..|].
  cbn [after trace] in Htr.
  exists (PickleLoad "lipinsky_model.pkl" :: es).
  rewrite on_run_nonempty by done.
  unfold try_except_ValueError, run_task; cbn [String.eqb Ascii.eqb Bool.eqb].
  unfold activity_branch.
  rewrite (bind_inr _ _ _ _ _ (load_model_ok E _ _ _ _ Hf Hp)).
  rewrite (bind_inr _ _ _ _ _ Hcalc).
  unfold model_predict. run_step.
  assert (Hpre : ∀ l, (trace w' ++ [Predict (lipinski_frame E mol)]) ++ l
            = trace w ++ (PickleLoad "lipinsky_model.pkl" :: es)
                ++ [Predict (lipinski_frame E mol)] ++ l).
  { intros l. rewrite Htr. by rewrite <- !app_assoc. }
  assert (Hbefore : Forall (λ e, inference e = false)
                      (PickleLoad "lipinsky_model.pkl" :: es)) by by constructor.
  destruct (predict model (lipinski_frame E mol)) as [e|y_pred]; cbn.
  - destruct e; cbn; eexists; (split; [apply Hpre || (rewrite <- (app_nil_r (_ ++ [_])); apply Hpre)|]);
      repeat split; try done; by repeat constructor.
  - destruct (eq_1_truth E y_pred) as [e|[]]; cbn.
    + destruct e; cbn; eexists; (split; [apply Hpre || (rewrite <- (app_nil_r (_ ++ [_])); apply Hpre)|]);
        repeat split; try done; by repeat constructor.
    + eexists. split; [apply Hpre|]. repeat split; try done; by repeat constructor.
    + eexists. split; [apply Hpre|]. repeat split; try done; by repeat constructor.
Qed.

Lemma classifier_sees_engine_frame_witness :
  ∃ before behind,
    trace (on_run (Demo.env 1 Demo.raw_pIC50) "CCO" "Predict the Compound's Activity"
             Demo.fresh).2
    = trace Demo.fresh ++ before
      ++ [Predict (lipinski_frame (Demo.env 1 Demo.raw_pIC50) tt)] ++ behind
    ∧ Forall (λ e, inference e = false) before
    ∧ Forall (λ e, inference e = false) behind
    ∧ column_names (lipinski_frame (Demo.env 1 Demo.raw_pIC50) tt)
      = ["MW"; "LogP"; "NumHDonors"; "NumHAcceptors"].
Proof.
  refine (classifier_sees_engine_frame (Demo.env 1 Demo.raw_pIC50) "CCO" "classifier" tt
            (Demo.classifier 1) Demo.fresh _ _ _ _ _).
  - apply reachable_fresh. reflexivity.
  - discriminate.
  - reflexivity.
  - reflexivity.
  - reflexivity.
Defined.

(** ** The cache *)

Lemma calculate_stores (E : Env) (smiles : string) (df : DataFrame) (w w' : World) :
  calculate_lipinski_descriptors E smiles w = (inr df, w') →
  cache w' !! smiles = Some df.
Proof.
  intros Hcall.
  destruct (calculate_cases E smiles w)
    as [(df' & Hl & Heq)|[(mol & Hl & Hs & Heq)|(Hl & Hs & Heq)]];
    rewrite Heq in Hcall; try discriminate.
  - by injection Hcall as <- <-.
  - injection Hcall as <- <-. cbn [cache]. apply lookup_insert_eq.
Qed.

(** X4: a call of the engine that returned a frame is answered from the
    store from then on: the same call again returns the same frame and
    changes nothing, so RDKit is not asked a second time. *)
Theorem second_call_from_cache (E : Env) (smiles : string) (df : DataFrame) (w w' : World) :
  calculate_lipinski_descriptors E smiles w = (inr df, w') →
  calculate_lipinski_descriptors E smiles w' = (inr df, w')
  ∧ cache w' !! smiles = Some df.
Proof.
  intros Hl%calculate_stores. split; [|done]. by apply calculate_hit.
Qed.

Lemma second_call_from_cache_witness :
  cache (calculate_lipinski_descriptors (Demo.env 1 Demo.raw_pIC50) "CCO" Demo.fresh).2
    !! "CCO"
  = Some (lipinski_frame (Demo.env 1 Demo.raw_pIC50) tt).
Proof.
  refine (proj2
    (second_call_from_cache (Demo.env 1 Demo.raw_pIC50) "CCO" _ Demo.fresh _ _)).
  reflexivity.
Defined.

(** X5: in every state a session can reach from an empty cache, each
    stored frame is the descriptor frame of the molecule of its key; a
    string RDKit rejects is never stored. *)
Theorem cache_holds_descriptors_only (E : Env) (w : World) :
  reachable E w →
  (∀ s df, cache w !! s = Some df →
           ∃ mol, MolFromSmiles E s = Some mol ∧ df = lipinski_frame E mol)
  ∧ (∀ s, MolFromSmiles E s = None → cache w !! s = None).
Proof.
  intros Hw%reachable_coherent. split.
  - intros s df Hl. apply Hw in Hl.
    destruct (MolFromSmiles E s) as [mol|]; [|done].
    exists mol. split; [done|]. by injection Hl.
  - intros s Hs. by apply (cache_ok_invalid E).
Qed.

Lemma cache_holds_descriptors_only_witness :
  cache (session (Demo.env 1 Demo.raw_pIC50)
           [("CCO", "Compute Lipinski's Descriptors", true);
            ("xyz", "Compute Lipinski's Descriptors", true)] Demo.fresh) !! "xyz"
  = None.
Proof.
  refine (proj2 (cache_holds_descriptors_only (Demo.env 1 Demo.raw_pIC50) _ _) "xyz" _).
  - exists Demo.fresh. eexists. split; reflexivity.
  - reflexivity.
Defined.

Lemma cache_entry_kept (E : Env) (s : string) (df : DataFrame) (smiles opt : string)
    (button : bool) :
  preserves (λ w, cache w !! s = Some df) (main E smiles opt button).
Proof.
  apply main_preserves.
  - by intros e w.
  - by intros f w.
  - intros s' w Hl.
    destruct (calculate_cases E s' w)
      as [(df' & Hl' & ->)|[(mol & Hl' & Hs & ->)|(Hl' & Hs & ->)]]; cbn [snd cache];
      [done| |done].
    rewrite lookup_insert_ne; [done|]. intros ->. congruence.
Qed.

Lemma session_keeps_entry (E : Env) (runs : list (string * string * bool))
    (s : string) (df : DataFrame) (w : World) :
  cache w !! s = Some df →
  cache (session E runs w) !! s = Some df.
Proof.
  revert w. induction runs as [|[[smiles opt] button] runs IH]; intros w Hl; [done|].
  apply IH. by apply (cache_entry_kept E s df smiles opt button w).
Qed.

(** X6: nothing is ever taken out of the cache or changed in it: a frame
    stored for a string is still stored for it, unchanged, after any
    further runs of the script, whatever they do and however they end. *)
Theorem cache_only_grows (E : Env) (runs : list (string * string * bool))
    (s : string) (df : DataFrame) (w : World) :
  cache w !! s = Some df →
  cache (session E runs w) !! s = Some df.
Proof. apply session_keeps_entry. Qed.

Lemma cache_only_grows_witness :
  cache (session (Demo.env 1 Demo.raw_pIC50)
           [("xyz", "Predict the Compound's Activity", true);
            ("CCO", "Predict the Compound's pIC50", true)]
           (calculate_lipinski_descriptors (Demo.env 1 Demo.raw_pIC50) "CCO" Demo.fresh).2)
    !! "CCO"
  = Some (lipinski_frame (Demo.env 1 Demo.raw_pIC50) tt).
Proof.
  refine (cache_only_grows (Demo.env 1 Demo.raw_pIC50) _ "CCO" _ _ _).
  reflexivity.
Defined.

(** ** The files *)

Section Files.
Context (E : Env).

Lemma keeps_files_preserves {A} (m : M A) :
  (∀ f, preserves (λ w, fs w = f) m) → keeps_files m.
Proof. intros H w. by apply (H (fs w) w). Qed.

Lemma emit_keeps e f : preserves (λ w, fs w = f) (emit e).
Proof. by intros w. Qed.

Lemma calculate_keeps s f :
  preserves (λ w, fs w = f) (calculate_lipinski_descriptors E s).
Proof.
  intros w Hw.
  by destruct (calculate_cases E s w)
    as [(df & Hl & ->)|[(mol & Hl & Hs & ->)|(Hl & Hs & ->)]].
Qed.

Lemma load_model_keeps path : keeps_files (load_model E path).
Proof.
  apply keeps_files_preserves. intros f.
  apply load_model_preserves. intros e. apply emit_keeps.
Qed.

Lemma pIC50_rest_keeps : keeps_files (pIC50_rest E).
Proof.
  apply keeps_files_preserves. intros f.
  apply pIC50_rest_preserves. intros e. apply emit_keeps.
Qed.

Lemma contact_keeps : keeps_files contact.
Proof. by intros w. Qed.

Lemma lipinski_branch_keeps s : keeps_files (lipinski_branch E s).
Proof.
  apply keeps_files_preserves. intros f. unfold lipinski_branch.
  repeat first
    [ apply calculate_keeps | apply emit_keeps | apply preserves_lift
    | apply preserves_bind; [|intros ?] ].
Qed.

Lemma activity_branch_keeps s : keeps_files (activity_branch E s).
Proof.
  apply keeps_files_preserves. intros f. unfold activity_branch, model_predict.
  repeat first
    [ apply calculate_keeps | apply emit_keeps | apply preserves_lift
    | apply load_model_preserves; intros e; apply emit_keeps
    | apply preserves_bind; [|intros ?]
    | case_match ].
Qed.

Lemma proteins_branch_keeps s : keeps_files (proteins_branch E s).
Proof.
  apply keeps_files_preserves. intros f. unfold proteins_branch, query_search.
  repeat first
    [ apply emit_keeps | apply preserves_lift | apply preserves_bind; [|intros ?] ].
Qed.

Lemma try_keeps (body : M unit) : keeps_files body →
  keeps_files (try_except_ValueError body (λ e, emit (StError e))).
Proof.
  intros Hb w. unfold try_except_ValueError. specialize (Hb w).
  by destruct (body w) as [[[]|[]] w'].
Qed.

Lemma bind_keeps {A B} (m : M A) (k : A → M B) :
  keeps_files m → (∀ a, keeps_files (k a)) → keeps_files (bind m k).
Proof.
  intros Hm Hk w. unfold bind. specialize (Hm w).
  destruct (m w) as [[e|a] w']; [done|]. cbn [snd] in Hm. by rewrite Hk.
Qed.

End Files.

(** X7: only the pIC50 task with "Run" pressed touches the files.  A run
    of the script with any other task selected, or with "Run" not
    pressed whatever task is selected, leaves the file system exactly as
    it was, however the run ends. *)
Theorem other_tasks_keep_files (E : Env) (smiles selected_option : string)
    (st_button : bool) (w : World) :
  selected_option ≠ "Predict the Compound's pIC50" ∨ st_button = false →
  fs (main E smiles selected_option st_button w).2 = fs w.
Proof.
  intros Hopt. revert w. change (keeps_files (main E smiles selected_option st_button)).
  unfold main. apply bind_keeps; [|intros _; apply contact_keeps].
  destruct st_button; [|by intros w].
  destruct Hopt as [Hopt|]; [|done].
  unfold on_run. case_match; [by intros w|].
  apply try_keeps. unfold run_task.
  repeat case_match; try by intros w.
  - apply lipinski_branch_keeps.
  - apply activity_branch_keeps.
  - by destruct (String.eqb_spec selected_option "Predict the Compound's pIC50").
  - apply proteins_branch_keeps.
Qed.

Lemma other_tasks_keep_files_witness :
  fs (main (Demo.env 1 Demo.raw_pIC50) "CCO" "Predict the Compound's pIC50" false
        Demo.fresh).2
  = fs Demo.fresh.
Proof.
  refine (other_tasks_keep_files (Demo.env 1 Demo.raw_pIC50) "CCO"
            "Predict the Compound's pIC50" false Demo.fresh _).
  right. reflexivity.
Defined.

(** X8: in the pIC50 task the script writes [molecule.smi] and nothing
    else: after the branch, however it ends, the files are exactly those
    the external tool left when it was started on the old files with the
    new [molecule.smi] in place. *)
Theorem pIC50_files_are_the_tools (E : Env) (smiles : string) (w : World) :
  fs (run_task E smiles "Predict the Compound's pIC50" w).2
  = (bash E ["bash"; "./padel.sh"] (<["molecule.smi" := smi_text smiles]> (fs w))).2.
Proof.
  unfold run_task; cbn [String.eqb Ascii.eqb Bool.eqb].
  rewrite pIC50_branch_after_tool. by rewrite pIC50_rest_keeps.
Qed.


(** ** How a run ends *)

Lemma main_pressed (E : Env) (smiles opt : string) (w : World) :
  main E smiles opt true w
  = match on_run E smiles opt w with
    | (inl e, w') => (inl e, w')
    | (inr _, w') => (inr tt, after w' contact_events)
    end.
Proof.
  unfold main, bind. destruct (on_run E smiles opt w) as [[e|[]] w']; [done|].
  unfold contact, contact_events. run_step. by rewrite <- !app_assoc.
Qed.

(** X9: a run of the script with "Run" pressed ends in one of two ways.
    Either it ends normally and the last thing it shows is the contact
    section; or an exception that is not a [ValueError] leaves it, and
    then the run has shown nothing at all, neither a result nor a message
    nor the contact section. *)
Theorem run_ends_with_contact_or_nothing (E : Env) (smiles selected_option : string)
    (w : World) :
  (∃ w', main E smiles selected_option true w = (inr tt, after w' contact_events))
  ∨ (∃ e w', main E smiles selected_option true w = (inl e, w')
             ∧ (∀ msg, e ≠ ValueError msg)
             ∧ displayed w' = displayed w).
Proof.
  rewrite main_pressed. unfold on_run.
  destruct (String.eqb smiles EmptyString); [left; by eexists|].
  unfold try_except_ValueError.
  pose proof (run_task_fails_silently E smiles selected_option w) as Hq.
  destruct (run_task E smiles selected_option w) as [[e|[]] w'];
    [|left; by eexists].
  specialize (Hq e eq_refl). cbn [snd] in Hq.
  destruct e; try (right; eexists _, _; by repeat split).
  left. by eexists.
Qed.

(** X10: when [lipinsky_model.pkl] is missing, the activity task fails
    with [FileNotFoundError] before anything else happens: the input is
    not parsed, nothing is shown and nothing changes, for every
    non-empty input, valid or not. *)
Theorem activity_without_model_file (E : Env) (smiles : string) (w : World) :
  smiles ≠ EmptyString →
  fs w !! "lipinsky_model.pkl" = None →
  main E smiles "Predict the Compound's Activity" true w
  = (inl (FileNotFoundError "lipinsky_model.pkl"), w).
Proof.
  intros Hne Hf. rewrite main_pressed, on_run_nonempty by done.
  unfold try_except_ValueError, run_task; cbn [String.eqb Ascii.eqb Bool.eqb].
  unfold activity_branch, load_model. run_step. by rewrite Hf.
Qed.

Lemma activity_without_model_file_witness :
  main (Demo.env 1 Demo.raw_pIC50) "CCO" "Predict the Compound's Activity" true
    Demo.no_classifier
  = (inl (FileNotFoundError "lipinsky_model.pkl"), Demo.no_classifier).
Proof.
  refine (activity_without_model_file (Demo.env 1 Demo.raw_pIC50) "CCO"
            Demo.no_classifier _ _).
  - discriminate.
  - reflexivity.
Defined.

(** X11: the regressor file is opened only after the tool has run and
    its output has been read: when [model.pkl] is missing among the files
    the tool left, and the output file reads to a table with a "Name"
    column, the pIC50 task has written [molecule.smi], run the tool and
    read the output before it fails with [FileNotFoundError]; no
    prediction is made and nothing is shown. *)
Theorem pIC50_without_model_file (E : Env) (smiles text : string) (data X : DataFrame)
    (w : World) :
  smiles ≠ EmptyString →
  fs (after_tool E smiles w) !! "descriptors_output.csv" = Some text →
  parse_csv E text = inr data →
  drop ["Name"] data = inr X →
  fs (after_tool E smiles w) !! "model.pkl" = None →
  main E smiles "Predict the Compound's pIC50" true w
  = (inl (FileNotFoundError "model.pkl"),
     after (after_tool E smiles w) [ReadCsv "descriptors_output.csv"]).
Proof.
  intros Hne Hf Hp Hd Hm. rewrite main_pressed, on_run_pIC50 by done.
  unfold pIC50_rest, read_csv, load_model. run_step.
  rewrite Hf. run_step. rewrite Hp, Hd. cbn [fs]. by rewrite Hm.
Qed.

Lemma pIC50_without_model_file_witness :
  main (Demo.env 1 Demo.raw_pIC50) "CCO" "Predict the Compound's pIC50" true
    (mkWorld ∅ ∅ [])
  = (inl (FileNotFoundError "model.pkl"),
     after (after_tool (Demo.env 1 Demo.raw_pIC50) "CCO" (mkWorld ∅ ∅ []))
       [ReadCsv "descriptors_output.csv"]).
Proof.
  refine (pIC50_without_model_file (Demo.env 1 Demo.raw_pIC50) "CCO" "features"
            Demo.features _ (mkWorld ∅ ∅ []) _ _ _ _ _).
  - discriminate.
  - reflexivity.
  - reflexivity.
  - reflexivity.
  - reflexivity.
Defined.

(** ** The features *)

Lemma drop_Name_ok (data X : DataFrame) :
  drop ["Name"] data = inr X →
  "Name" ∈ column_names data
  ∧ X = mkDataFrame (df_index data) (filter (λ c, c.1 ≠ "Name") (df_columns data)).
Proof.
  unfold drop. rewrite filter_cons. case_decide as Hin; [by rewrite filter_nil|].
  rewrite filter_nil. intros [= <-]. split.
  - by destruct (decide ("Name" ∈ column_names data)).
  - f_equal. apply list_filter_iff. intros c. by rewrite list_elem_of_singleton.
Qed.

Lemma drop_Name_present (data : DataFrame) :
  "Name" ∈ column_names data →
  drop ["Name"] data
  = inr (mkDataFrame (df_index data) (filter (λ c, c.1 ≠ "Name") (df_columns data))).
Proof.
  intros Hin. unfold drop. rewrite filter_cons_False, filter_nil by by intros ?.
  do 2 f_equal. apply list_filter_iff. intros c. by rewrite list_elem_of_singleton.
Qed.

Lemma without_name_has_no_name (data : DataFrame) :
  "Name" ∉ column_names
             (mkDataFrame (df_index data)
                (filter (λ c, c.1 ≠ "Name") (df_columns data))).
Proof.
  unfold column_names; cbn [df_columns].
  intros (c & Hname & Hc%list_elem_of_filter)%list_elem_of_fmap.
  by destruct Hc as [Hc _].
Qed.

Ltac find_predict H :=
  cbn in H;
  repeat (destruct H as [H|H]; [try discriminate H|]);
  try contradiction.

(** X3: in the pIC50 task, when the output file of the tool reads to a
    table, the regressor is only ever called on that table without its
    columns named "Name": the other columns with their cells, in the
    order of the file, and the same rows; and the table had such a
    column.  With such a column and a model file that loads, the
    regressor is called on it. *)
Theorem regressor_sees_table_without_name (E : Env) (smiles text : string)
    (data : DataFrame) (w : World) :
  fs (after_tool E smiles w) !! "descriptors_output.csv" = Some text →
  parse_csv E text = inr data →
  let features :=
    mkDataFrame (df_index data) (filter (λ c, c.1 ≠ "Name") (df_columns data)) in
  ∃ es,
    trace (run_task E smiles "Predict the Compound's pIC50" w).2 = trace w ++ es
    ∧ (∀ X, In (Predict X) es → "Name" ∈ column_names data ∧ X = features)
    ∧ ("Name" ∉ column_names features)
    ∧ (∀ bytes model,
         "Name" ∈ column_names data →
         fs (after_tool E smiles w) !! "model.pkl" = Some bytes →
         pickle_load E bytes = inr model →
         In (Predict features) es).
Proof.
  intros Hf Hp features.
  unfold run_task; cbn [String.eqb Ascii.eqb Bool.eqb].
  rewrite pIC50_branch_after_tool.
  unfold pIC50_rest, read_csv. run_step. rewrite Hf. run_step. rewrite Hp.
  pose proof (without_name_has_no_name data) as Hno.
  destruct (drop ["Name"] data) as [e|X0] eqn:Hd.
  - eexists. split; [unfold after_tool; cbn [trace]; by rewrite <- app_assoc|].
    split; [|split; [done|]].
    + intros X HX. find_predict HX.
    + intros bytes model Hin _ _. rewrite (drop_Name_present _ Hin) in Hd.
      discriminate.
  - destruct (drop_Name_ok _ _ Hd) as [Hin ->]. fold features.
    unfold load_model, model_predict. run_step.
    destruct (fs (after_tool E smiles w) !! "model.pkl") as [bytes|] eqn:Hm; run_step.
    + destruct (pickle_load E bytes) as [e|model] eqn:Hl; run_step.
      * eexists. split; [unfold after_tool; cbn [trace]; by rewrite <- !app_assoc|].
        split; [|split; [done|]].
        -- intros X HX. find_predict HX.
        -- intros bytes' model' _ [= <-]. congruence.
      * destruct (predict model features) as [e|y_pred]; run_step;
          [|destruct (first_item y_pred) as [e|y]; run_step];
          (eexists; split; [unfold after_tool; cbn [trace]; by rewrite <- !app_assoc|]);
          (split; [|split; [done|]]);
          try (intros X HX; find_predict HX; by injection HX as <-);
          intros; cbn; tauto.
    + eexists. split; [unfold after_tool; cbn [trace]; by rewrite <- !app_assoc|].
      split; [|split; [done|]].
      * intros X HX. find_predict HX.
      * intros bytes model _ [=].
Qed.

Lemma regressor_sees_table_without_name_witness :
  ∃ es,
    trace (run_task (Demo.env 1 Demo.raw_pIC50) "CCO" "Predict the Compound's pIC50"
             Demo.fresh).2
    = trace Demo.fresh ++ es
    ∧ In (Predict (mkDataFrame [0]
                     [("nAcid", [CNum (NInt 0)]);
                      ("ALogP", [CNum (NFloat Demo.ethanol_logp)])])) es.
Proof.
  destruct (regressor_sees_table_without_name (Demo.env 1 Demo.raw_pIC50) "CCO"
              "features" Demo.features Demo.fresh eq_refl eq_refl)
    as (es & Htrace & _ & _ & Hcalled).
  exists es. split; [exact Htrace|].
  refine (Hcalled "regressor" (Demo.regressor Demo.raw_pIC50) _ _ _).
  - cbn. apply list_elem_of_here.
  - reflexivity.
  - reflexivity.
Defined.

(** ** Runs that follow one another *)

(** X15: once the descriptors of a valid string have been shown, every
    later descriptors run for the same string, with any other runs of the
    script in between, shows the same table again and asks RDKit nothing:
    the run adds the style block and the table to the trace and nothing
    else. *)
Theorem descriptors_shown_again_from_cache (E : Env) (smiles : string) (mol : Mol E)
    (runs : list (string * string * bool)) (w : World) :
  reachable E w →
  smiles ≠ EmptyString →
  MolFromSmiles E smiles = Some mol →
  let w1 := (on_run E smiles "Compute Lipinski's Descriptors" w).2 in
  let w2 := session E runs w1 in
  on_run E smiles "Compute Lipinski's Descriptors" w2
  = (inr tt, after w2 [StHtml hide_table_row_index; StTable (lipinski_table E mol)]).
Proof.
  intros Hw Hne Hs w1 w2. apply reachable_coherent in Hw.
  destruct (calculate_valid E smiles mol w Hw Hs) as (w' & Hcalc & _ & _).
  assert (Hbranch : ∀ v, cache v !! smiles = Some (lipinski_frame E mol) →
            on_run E smiles "Compute Lipinski's Descriptors" v
            = (inr tt, after v [StHtml hide_table_row_index;
                                StTable (lipinski_table E mol)])).
  { intros v Hv. rewrite on_run_nonempty by done.
    unfold try_except_ValueError, run_task; cbn [String.eqb Ascii.eqb Bool.eqb].
    unfold lipinski_branch.
    rewrite (bind_inr _ _ _ _ _ (calculate_hit E _ _ _ Hv)).
    rewrite set_columns_lipinski. run_step. by rewrite <- app_assoc. }
  apply Hbranch. apply session_keeps_entry.
  assert (Hw1 : cache w1 = cache w').
  { subst w1. rewrite on_run_nonempty by done.
    unfold try_except_ValueError, run_task; cbn [String.eqb Ascii.eqb Bool.eqb].
    unfold lipinski_branch. rewrite (bind_inr _ _ _ _ _ Hcalc).
    rewrite set_columns_lipinski. by run_step. }
  rewrite Hw1. by eapply calculate_stores.
Qed.

Lemma descriptors_shown_again_from_cache_witness :
  on_run (Demo.env 1 Demo.raw_pIC50) "CCO" "Compute Lipinski's Descriptors"
    (session (Demo.env 1 Demo.raw_pIC50)
       [("xyz", "Predict the Compound's Activity", true)]
       (on_run (Demo.env 1 Demo.raw_pIC50) "CCO" "Compute Lipinski's Descriptors"
          Demo.fresh).2)
  = (inr tt,
     after
       (session (Demo.env 1 Demo.raw_pIC50)
          [("xyz", "Predict the Compound's Activity", true)]
          (on_run (Demo.env 1 Demo.raw_pIC50) "CCO" "Compute Lipinski's Descriptors"
             Demo.fresh).2)
       [StHtml hide_table_row_index;
        StTable (lipinski_table (Demo.env 1 Demo.raw_pIC50) tt)]).
Proof.
  refine (descriptors_shown_again_from_cache (Demo.env 1 Demo.raw_pIC50) "CCO" tt
            [("xyz", "Predict the Compound's Activity", true)] Demo.fresh _ _ _).
  - apply reachable_fresh. reflexivity.
  - discriminate.
  - reflexivity.
Defined.

(** ** The intermediate file again *)

Lemma length_append (a b : string) :
  String.length (a +:+ b) = (String.length a + String.length b)%nat.
Proof. induction a as [|x a IH]; push_append; cbn; [done|]. by rewrite IH. Qed.

Lemma append_inj_r (a b c : string) : a +:+ c = b +:+ c → a = b.
Proof.
  revert b. induction a as [|x a IH]; intros [|y b]; push_append; intros H.
  - done.
  - apply (f_equal String.length) in H. cbn in H. rewrite length_append in H. lia.
  - apply (f_equal String.length) in H. cbn in H. rewrite length_append in H. lia.
  - injection H as -> H. f_equal. by apply IH.
Qed.

Lemma csv_double_quotes_inj (a b : string) :
  csv_double_quotes a = csv_double_quotes b → a = b.
Proof.
  revert b. induction a as [|x a IH]; intros [|y b]; cbn [csv_double_quotes].
  - done.
  - by destruct (Ascii.eqb y DQUOTE).
  - by destruct (Ascii.eqb x DQUOTE).
  - destruct (Ascii.eqb_spec x DQUOTE) as [->|Hx],
             (Ascii.eqb_spec y DQUOTE) as [->|Hy]; intros H.
    + injection H as H. f_equal. by apply IH.
    + injection H as H1 H2. congruence.
    + injection H as H1 H2. congruence.
    + injection H as -> H. f_equal. by apply IH.
Qed.

Lemma csv_field_inj (a b : string) : csv_field a = csv_field b → a = b.
Proof.
  unfold csv_field.
  destruct (has_special a) eqn:Ha, (has_special b) eqn:Hb; intros H.
  - injection H as H. by apply append_inj_r, csv_double_quotes_inj in H.
  - subst b. cbn in Hb. discriminate.
  - subst a. cbn in Ha. discriminate.
  - done.
Qed.

Lemma csv_writerows_one_field (string1 string2 : string) :
  csv_writerows [[string1 +:+ String TAB EmptyString +:+ string2]]
  = csv_field (string1 +:+ String TAB string2) +:+ CRLF.
Proof. by destruct string1. Qed.

(** X12: the text [generate_csv_file] writes determines the first string:
    with the same second string, two different first strings never give
    the same file, also when the writer quotes the line. *)
Theorem intermediate_file_tells_inputs_apart (string1 string1' string2 : string) :
  string1 ≠ string1' →
  csv_writerows [[string1 +:+ String TAB EmptyString +:+ string2]]
  ≠ csv_writerows [[string1' +:+ String TAB EmptyString +:+ string2]].
Proof.
  intros Hne H. apply Hne. rewrite !csv_writerows_one_field in H.
  by apply append_inj_r, csv_field_inj, append_inj_r in H.
Qed.

Lemma intermediate_file_tells_inputs_apart_witness :
  csv_writerows [["C,C" +:+ String TAB EmptyString +:+ "Compound_name"]]
  ≠ csv_writerows [["C" +:+ String TAB EmptyString +:+ "Compound_name"]].
Proof.
  refine (intermediate_file_tells_inputs_apart "C,C" "C" "Compound_name" _).
  discriminate.
Defined.

(** ** Tasks that do not use the engine *)

Ltac trace_tail :=
  first
    [ exists []; split; [by rewrite app_nil_r|by constructor]
    | eexists; split; [rewrite <- ?app_assoc; reflexivity|by repeat constructor] ].

(** X16: the pIC50 task and the protein task never call the descriptor
    engine: whatever the input and however the branch ends, it leaves the
    cache as it is and RDKit is asked neither to parse nor to describe,
    so a string RDKit would reject is not rejected there. *)
Theorem pIC50_and_proteins_skip_engine (E : Env) (smiles selected_option : string)
    (w : World) :
  selected_option = "Predict the Compound's pIC50"
  ∨ selected_option = "Retrieve interacting proteins" →
  let r := run_task E smiles selected_option w in
  cache r.2 = cache w
  ∧ ∃ es, trace r.2 = trace w ++ es ∧ Forall (λ e, engine_event e = false) es.
Proof.
  intros [->| ->] r; subst r; unfold run_task; cbn [String.eqb Ascii.eqb Bool.eqb].
  - rewrite pIC50_branch_after_tool.
    unfold pIC50_rest, read_csv, load_model, model_predict, after_tool.
    run_step.
    repeat (case_match; simplify_eq; run_step); (split; [done|]); trace_tail.
  - unfold proteins_branch, query_search. run_step.
    repeat (case_match; simplify_eq; run_step); (split; [done|]); trace_tail.
Qed.

Lemma pIC50_and_proteins_skip_engine_witness :
  cache (run_task (Demo.env 1 Demo.raw_pIC50) "not a molecule"
           "Predict the Compound's pIC50" Demo.used).2
  = cache Demo.used.
Proof.
  refine (proj1
    (pIC50_and_proteins_skip_engine (Demo.env 1 Demo.raw_pIC50) "not a molecule"
       "Predict the Compound's pIC50" Demo.used _)).
  left. reflexivity.
Defined.
